(** * Credential storage of the pscale CLI: internal/config/config.go

    A shallow embedding of the access-token storage code (keyring first,
    permission-restricted file as fallback, one-way migration) together
    with the properties its specification states about it.

    The Go functions of [config.go] are embedded one by one, under their
    own names, as computations in a small monad over an explicit [World].
    The world holds what the code can observe and change on the host: the
    home directory, the OS keyring and the file system.  The operating
    system and the keyring library are not part of the repository; they
    are modelled in the parts on the file system and on the keyring below,
    after the documented behaviour of the Go standard library and the
    contract of the keyring library. *)

From Stdlib Require Import ZArith Ascii String.
From stdpp Require Import base option strings gmap.

Local Open Scope Z_scope.
Local Open Scope string_scope.

(** ** Calls into the environment *)

(** Every call that leaves the package.  A call identifies itself in the
    trace of the world and in the fault table of the host. *)
Inductive call : Type :=
| KeyringOpen
| KeyringGet (key : string)
| KeyringSet (key data : string)
| KeyringRemove (key : string)
| OsStat (name : string)
| OsChmod (name : string) (mode : Z)
| OsRemove (name : string)
| OsMkdirAll (name : string) (perm : Z)
| IoReadFile (name : string)
| IoWriteFile (name : string) (data : string) (perm : Z).

Global Instance call_eq_dec : EqDecision call.
Proof. solve_decision. Defined.

(** ** Go errors *)

(** The error values that occur in the package.  [ErrNoAvailImpl] and
    [ErrKeyNotFound] are the sentinels of the keyring library,
    [ErrNotExist] is the [*PathError] of a missing file, [ErrFault] is any
    other failure of a call, [ErrHomeDir] the failure to resolve the home
    directory.  [Errorf] is [fmt.Errorf] with a [%s] verb (the cause is
    formatted, not wrapped); [Wrap] is [errors.Wrap] of pkg/errors, whose
    result unwraps to its cause. *)
Inductive error : Type :=
| ErrNoAvailImpl
| ErrKeyNotFound
| ErrNotExist (c : call)
| ErrFault (c : call)
| ErrHomeDir
| Errorf (format : string) (cause : error)
| Wrap (cause : error) (message : string).

Global Instance error_eq_dec : EqDecision error.
Proof. solve_decision. Defined.

(** [errors.Is]: walks the chain of wrapped errors. *)
Fixpoint error_chain_has (target e : error) : bool :=
  if bool_decide (e = target) then true
  else match e with
       | Wrap cause _ => error_chain_has target cause
       | _ => false
       end.

Definition errors_Is (err : option error) (target : error) : bool :=
  match err with
  | None => false
  | Some e => error_chain_has target e
  end.

(** [os.IsNotExist]: looks at the error itself, it does not follow
    [errors.Wrap]. *)
Definition os_IsNotExist (err : option error) : bool :=
  match err with
  | Some (ErrNotExist _) => true
  | _ => false
  end.

(** ** The world *)

(** A file system entry.  Modes are [os.FileMode] values (unsigned 32 bit
    integers); a directory carries the [ModeDir] bit when it is stat'ed. *)
Inductive node : Type :=
| File (mode : Z) (data : string)
| Dir (perm : Z).

Definition ModeDir : Z := Z.shiftl 1 31.

(** What the standard logger records. *)
Inductive event : Type :=
| Call (c : call)
| LogPrintf (format name : string) (mode : Z) (e : error)
| LogFatal (e : error).

(** The host as the package sees it.  [fault] stands for every reason a
    call can fail for that the rest of the world does not account for
    (permissions, a full disk, a locked keychain, ...); it is fixed for a
    host, so a call that fails once fails whenever it is repeated. *)
Record World : Type := mkWorld {
  home_dir : option string;            (* the user's home, if it resolves *)
  open_err : option error;             (* what keyring.Open fails with    *)
  ring_items : gmap string string;     (* the secrets of the service      *)
  nodes : gmap string node;            (* the file system                 *)
  fault : call → bool;                 (* calls that fail on this host    *)
  trace : list event                   (* calls and log lines, in order   *)
}.

Definition record (ev : event) (w : World) : World :=
  mkWorld (home_dir w) (open_err w) (ring_items w) (nodes w) (fault w)
          (trace w ++ [ev]).

Definition with_items (items : gmap string string) (w : World) : World :=
  mkWorld (home_dir w) (open_err w) items (nodes w) (fault w) (trace w).

Definition with_nodes (fs : gmap string node) (w : World) : World :=
  mkWorld (home_dir w) (open_err w) (ring_items w) fs (fault w) (trace w).

(** ** Outcomes and the monad of the package *)

(** A Go function of the package either returns, or ends the process
    through [log.Fatal], or panics on a nil dereference. *)
Inductive outcome (A : Type) : Type :=
| Returns (a : A) (w : World)
| Exits (w : World)
| Panics (w : World).

Arguments Returns {A} a w.
Arguments Exits {A} w.
Arguments Panics {A} w.

Definition M (A : Type) : Type := World → outcome A.

Global Instance M_ret : MRet M := λ A a w, Returns a w.

Global Instance M_bind : MBind M := λ A B f m w,
  match m w with
  | Returns a w' => f a w'
  | Exits w' => Exits w'
  | Panics w' => Panics w'
  end.

(** The world in which an outcome was reached. *)
Definition world_of {A : Type} (o : outcome A) : World :=
  match o with
  | Returns _ w => w
  | Exits w => w
  | Panics w => w
  end.

(** [log.Printf] and [log.Fatal]. *)
Definition log_Printf (format name : string) (mode : Z) (e : error) : M unit :=
  λ w, Returns tt (record (LogPrintf format name mode e) w).

Definition log_Fatal {A : Type} (e : error) : M A :=
  λ w, Exits (record (LogFatal e) w).

(** A call is recorded, then it fails when the host says so. *)
Definition enter (c : call) : M bool :=
  λ w, Returns (fault w c) (record (Call c) w).

(** ** The file system: package os and io/ioutil *)

(** [os.FileInfo], of which the package only asks the mode. *)
Record FileInfo : Type := { Mode : Z }.

(** [os.Stat]. *)
Definition os_Stat (name : string) : M (option FileInfo * option error) :=
  failed ← enter (OsStat name);
  if failed : bool then mret (None, Some (ErrFault (OsStat name)))
  else λ w,
    match nodes w !! name with
    | Some (File mode _) => Returns (Some {| Mode := mode |}, None) w
    | Some (Dir perm) => Returns (Some {| Mode := Z.lor ModeDir perm |}, None) w
    | None => Returns (None, Some (ErrNotExist (OsStat name))) w
    end.

(** [os.Chmod]: replaces the permission bits of the entry. *)
Definition os_Chmod (name : string) (mode : Z) : M (option error) :=
  failed ← enter (OsChmod name mode);
  if failed : bool then mret (Some (ErrFault (OsChmod name mode)))
  else λ w,
    match nodes w !! name with
    | Some (File _ data) =>
        Returns None (with_nodes (<[name := File mode data]> (nodes w)) w)
    | Some (Dir _) =>
        Returns None (with_nodes (<[name := Dir mode]> (nodes w)) w)
    | None => Returns (Some (ErrNotExist (OsChmod name mode))) w
    end.

(** [os.Remove]: removes the file or the (empty) directory; a directory
    that cannot be removed is a fault of the call. *)
Definition os_Remove (name : string) : M (option error) :=
  failed ← enter (OsRemove name);
  if failed : bool then mret (Some (ErrFault (OsRemove name)))
  else λ w,
    match nodes w !! name with
    | Some _ => Returns None (with_nodes (delete name (nodes w)) w)
    | None => Returns (Some (ErrNotExist (OsRemove name))) w
    end.

(** [os.MkdirAll]: nothing to do for a directory, an error when a file is
    in the way, otherwise the directory is created with [perm]. *)
Definition os_MkdirAll (name : string) (perm : Z) : M (option error) :=
  failed ← enter (OsMkdirAll name perm);
  if failed : bool then mret (Some (ErrFault (OsMkdirAll name perm)))
  else λ w,
    match nodes w !! name with
    | Some (Dir _) => Returns None w
    | Some (File _ _) => Returns (Some (ErrFault (OsMkdirAll name perm))) w
    | None => Returns None (with_nodes (<[name := Dir perm]> (nodes w)) w)
    end.

(** [ioutil.ReadFile]: the whole content of a file; reading a directory
    fails. *)
Definition ioutil_ReadFile (name : string) : M (string * option error) :=
  failed ← enter (IoReadFile name);
  if failed : bool then mret ("", Some (ErrFault (IoReadFile name)))
  else λ w,
    match nodes w !! name with
    | Some (File _ data) => Returns (data, None) w
    | Some (Dir _) => Returns ("", Some (ErrFault (IoReadFile name))) w
    | None => Returns ("", Some (ErrNotExist (IoReadFile name))) w
    end.

(** The directory a path lies in: what precedes its last slash, if it
    has one. *)
Fixpoint path_parent (name : string) : option string :=
  match name with
  | "" => None
  | String c rest =>
      match path_parent rest with
      | Some dir => Some (String c dir)
      | None => if bool_decide (c = "/"%char) then Some "" else None
      end
  end.

(** Where a new entry at [name] would go. *)
Inductive place : Type :=
| Here              (* the directory of [name] is there          *)
| Missing           (* it is not: ENOENT                          *)
| NotADirectory.    (* a file is in its place: ENOTDIR            *)

(** A name without a slash lies in the working directory, a name right
    under the root in the root; both directories are taken to be there. *)
Definition parent_of_new_entry (w : World) (name : string) : place :=
  match path_parent name with
  | None => Here
  | Some "" => Here
  | Some dir =>
      match nodes w !! dir with
      | Some (Dir _) => Here
      | Some (File _ _) => NotADirectory
      | None => Missing
      end
  end.

(** [ioutil.WriteFile]: an existing file is truncated and written and
    keeps the mode it has; a missing file is created with [perm] (the umask
    of the process is not modelled) when the directory it lies in is there,
    and the call fails when that directory is missing or is not a directory;
    writing to a directory fails. *)
Definition ioutil_WriteFile (name data : string) (perm : Z) : M (option error) :=
  failed ← enter (IoWriteFile name data perm);
  if failed : bool then mret (Some (ErrFault (IoWriteFile name data perm)))
  else λ w,
    match nodes w !! name with
    | Some (File mode _) =>
        Returns None (with_nodes (<[name := File mode data]> (nodes w)) w)
    | Some (Dir _) => Returns (Some (ErrFault (IoWriteFile name data perm))) w
    | None =>
        match parent_of_new_entry w name with
        | Here =>
            Returns None (with_nodes (<[name := File perm data]> (nodes w)) w)
        | Missing =>
            Returns (Some (ErrNotExist (IoWriteFile name data perm))) w
        | NotADirectory =>
            Returns (Some (ErrFault (IoWriteFile name data perm))) w
        end
    end.

(** [homedir.Expand]: a leading [~] stands for the home directory; the
    rest of the path is appended to it. *)
Definition homedir_Expand (path : string) : M (string * option error) :=
  λ w,
    match path with
    | String "~"%char rest =>
        match home_dir w with
        | Some home => Returns (home +:+ rest, None) w
        | None => Returns ("", Some ErrHomeDir) w
        end
    | _ => Returns (path, None) w
    end.

(** [path.Join] and [filepath.Join] of a directory and a name; an empty
    directory is skipped, the cleaning of the result is not modelled. *)
Definition path_Join (dir name : string) : string :=
  if bool_decide (dir = "") then name else dir +:+ "/" +:+ name.

(** ** The keyring: github.com/99designs/keyring *)

Record Item : Type := { Key : string; Data : string }.

(** A value of the interface [keyring.Keyring]: nil, or an opened
    backend of a service. *)
Inductive Keyring : Type :=
| NilKeyring
| Backend (service : string).

(** [keyring.Open]: a backend and no error, or nil and the error. *)
Definition keyring_Open (service : string) : M (Keyring * option error) :=
  λ w,
    match open_err w with
    | None => Returns (Backend service, None) (record (Call KeyringOpen) w)
    | Some e => Returns (NilKeyring, Some e) (record (Call KeyringOpen) w)
    end.

(** [Keyring.Get].  Calling a method of a nil interface value panics. *)
Definition ring_Get (ring : Keyring) (key : string) : M (Item * option error) :=
  match ring with
  | NilKeyring => λ w, Panics w
  | Backend _ =>
      failed ← enter (KeyringGet key);
      if failed : bool
      then mret ({| Key := ""; Data := "" |}, Some (ErrFault (KeyringGet key)))
      else λ w,
        match ring_items w !! key with
        | Some data => Returns ({| Key := key; Data := data |}, None) w
        | None => Returns ({| Key := ""; Data := "" |}, Some ErrKeyNotFound) w
        end
  end.

(** [Keyring.Set]. *)
Definition ring_Set (ring : Keyring) (item : Item) : M (option error) :=
  match ring with
  | NilKeyring => λ w, Panics w
  | Backend _ =>
      failed ← enter (KeyringSet (Key item) (Data item));
      if failed : bool
      then mret (Some (ErrFault (KeyringSet (Key item) (Data item))))
      else λ w,
        Returns None (with_items (<[Key item := Data item]> (ring_items w)) w)
  end.

(** [Keyring.Remove]: removing a key that is not there is [ErrKeyNotFound]. *)
Definition ring_Remove (ring : Keyring) (key : string) : M (option error) :=
  match ring with
  | NilKeyring => λ w, Panics w
  | Backend _ =>
      failed ← enter (KeyringRemove key);
      if failed : bool then mret (Some (ErrFault (KeyringRemove key)))
      else λ w,
        match ring_items w !! key with
        | Some _ => Returns None (with_items (delete key (ring_items w)) w)
        | None => Returns (Some ErrKeyNotFound) w
        end
  end.

(** ** Package config: config.go *)

Definition defaultConfigPath : string := "~/.config/planetscale".
Definition projectConfigName : string := ".pscale.yml".
Definition configName : string := "pscale.yml".
Definition keyringService : string := "pscale".
Definition keyringKey : string := "access-token".
Definition tokenFileMode : Z := 384.       (* 0o600 *)
Definition configDirMode : Z := 505.       (* 0771, the literal of MkdirAll *)

(** [ps.DefaultBaseURL] of the API client library. *)
Definition DefaultBaseURL : string := "https://api.planetscale.com/".

Record Config : Type := {
  AccessToken : string;
  BaseURL : string;
  Organization : string;
  ServiceTokenID : string;
  ServiceToken : string;
  Database : string;
  Branch : string
}.

Definition IsAuthenticated (c : Config) : bool :=
  (bool_decide (ServiceToken c ≠ "") && bool_decide (ServiceTokenID c ≠ ""))
  || bool_decide (AccessToken c ≠ "").

Definition ConfigDir : M (string * option error) :=
  '(dir, err) ← homedir_Expand defaultConfigPath;
  match err with
  | Some e => mret ("", Some (Errorf "can't expand path %q: %s" e))
  | None => mret (dir, None)
  end.

(** [DefaultConfigPath] of global.go. *)
Definition DefaultConfigPath : M (string * option error) :=
  '(dir, err) ← ConfigDir;
  match err with
  | Some _ => mret ("", err)
  | None => mret (path_Join dir configName, None)
  end.

Definition openKeyring : M (Keyring * option error) :=
  keyring_Open keyringService.

Definition accessTokenPath : M (string * option error) :=
  '(dir, err) ← ConfigDir;
  match err with
  | Some _ => mret ("", err)
  | None => mret (path_Join dir keyringKey, None)
  end.

Definition readAccessTokenPath : M (string * option error) :=
  '(tokenPath, err) ← accessTokenPath;
  match err with
  | Some _ => mret ("", err)
  | None =>
      '(stat, err) ← os_Stat tokenPath;
      match err with
      | Some e =>
          (if negb (os_IsNotExist err) then log_Fatal e else mret tt) ;;
          mret ("", err)
      | None =>
          match stat with
          | None => λ w, Panics w
          | Some info =>
              (if bool_decide (Z.ldiff (Mode info) tokenFileMode ≠ 0) then
                 err ← os_Chmod tokenPath tokenFileMode;
                 match err with
                 | Some e =>
                     log_Printf "Unable to change %v file mode to 0%o: %v"
                                tokenPath tokenFileMode e
                 | None => mret tt
                 end
               else mret tt) ;;
              '(accessToken, err) ← ioutil_ReadFile tokenPath;
              (match err with
               | Some e => log_Fatal e
               | None => mret tt
               end) ;;
              mret (accessToken, None)
          end
      end
  end.

Definition migrateAccessToken (ring : Keyring) (accessToken : string)
  : M (string * option error) :=
  err ← ring_Set ring {| Key := keyringKey; Data := accessToken |};
  match err with
  | Some _ => mret ("", err)
  | None =>
      '(path, err) ← accessTokenPath;
      match err with
      | Some _ => mret ("", err)
      | None =>
          err ← os_Remove path;
          match err with
          | Some _ => mret ("", err)
          | None => mret (accessToken, None)
          end
      end
  end.

Definition readAccessToken : M (string * option error) :=
  '(ring, err) ← openKeyring;
  if errors_Is err ErrNoAvailImpl then
    '(accessToken, tokenErr) ← readAccessTokenPath;
    mret (accessToken, tokenErr)
  else
    '(item, err) ← ring_Get ring keyringKey;
    match err with
    | None => mret (Data item, None)
    | Some _ =>
        if errors_Is err ErrKeyNotFound then
          '(accessToken, tokenErr) ← readAccessTokenPath;
          if bool_decide (0 < String.length accessToken)%nat
             && bool_decide (tokenErr = None)
          then migrateAccessToken ring accessToken
          else mret ("", None)
        else mret ("", err)
    end.

Definition New : M (option Config * option error) :=
  '(accessToken, err) ← readAccessToken;
  match err with
  | Some _ => mret (None, err)
  | None =>
      mret (Some {| AccessToken := accessToken; BaseURL := DefaultBaseURL;
                    Organization := ""; ServiceTokenID := "";
                    ServiceToken := ""; Database := ""; Branch := "" |}, None)
  end.

(** [early] is the error with which the [if]/[else if] on the result of
    [os.Stat] returns, if it does. *)
Definition writeAccessTokenPath (accessToken : string) : M (option error) :=
  '(configDir, err) ← ConfigDir;
  match err with
  | Some _ => mret err
  | None =>
      '(_, err) ← os_Stat configDir;
      early ←
        (if os_IsNotExist err then
           err ← os_MkdirAll configDir configDirMode;
           match err with
           | Some e => mret (Some (Wrap e "error creating config directory"))
           | None => mret None
           end
         else mret err);
      match early with
      | Some _ => mret early
      | None =>
          '(tokenPath, err) ← accessTokenPath;
          match err with
          | Some _ => mret err
          | None =>
              err ← ioutil_WriteFile tokenPath accessToken tokenFileMode;
              match err with
              | Some e => mret (Some (Wrap e "error writing token"))
              | None => mret None
              end
          end
      end
  end.

(** The second half of [deleteAccessTokenPath], from the call of
    [DefaultConfigPath] on: both ways through the first half end here. *)
Definition deleteDefaultConfigFile : M (option error) :=
  '(configFile, err) ← DefaultConfigPath;
  match err with
  | Some _ => mret err
  | None =>
      err ← os_Remove configFile;
      match err with
      | Some e =>
          if negb (os_IsNotExist err)
          then mret (Some (Wrap e "error removing default config file"))
          else mret None
      | None => mret None
      end
  end.

Definition deleteAccessTokenPath : M (option error) :=
  '(tokenPath, err) ← accessTokenPath;
  match err with
  | Some _ => mret err
  | None =>
      err ← os_Remove tokenPath;
      match err with
      | Some e =>
          if negb (os_IsNotExist err)
          then mret (Some (Wrap e "error removing access token file"))
          else deleteDefaultConfigFile
      | None => deleteDefaultConfigFile
      end
  end.

Definition WriteAccessToken (accessToken : string) : M (option error) :=
  '(ring, err) ← openKeyring;
  if errors_Is err ErrNoAvailImpl then writeAccessTokenPath accessToken
  else ring_Set ring {| Key := keyringKey; Data := accessToken |}.

Definition DeleteAccessToken : M (option error) :=
  '(ring, err) ← openKeyring;
  if errors_Is err ErrNoAvailImpl then deleteAccessTokenPath
  else ring_Remove ring keyringKey.

(** ** Hosts to run the code on *)

Definition no_fault : call → bool := λ _, false.

Definition tokenFile : string := "/home/dev/.config/planetscale/access-token".

(** A host with a home directory, a given keyring state and file system. *)
Definition host (open : option error) (items : gmap string string)
    (fs : gmap string node) (faults : call → bool) : World :=
  mkWorld (Some "/home/dev") open items fs faults [].

Definition set_fails : call → bool :=
  λ c, match c with KeyringSet _ _ => true | _ => false end.

Definition remove_fails : call → bool :=
  λ c, match c with OsRemove _ => true | _ => false end.

Definition stat_fails : call → bool :=
  λ c, match c with OsStat _ => true | _ => false end.

Definition read_fails : call → bool :=
  λ c, match c with IoReadFile _ => true | _ => false end.

(** Opening the keyring fails, and not for want of a backend. *)
Definition broken_keyring : World :=
  host (Some (ErrFault KeyringOpen)) ∅ ∅ no_fault.

(** No keyring on the host, nothing stored yet. *)
Definition fresh_file_only : World := host (Some ErrNoAvailImpl) ∅ ∅ no_fault.

(** A keyring that holds nothing, next to a token file from earlier days. *)
Definition unmigrated (faults : call → bool) : World :=
  host None ∅ {[ tokenFile := File tokenFileMode "tok-B" ]} faults.

(** A keyring that holds the token, next to a stale copy in the file. *)
Definition both_populated : World :=
  host None {[ keyringKey := "tok-B" ]}
       {[ tokenFile := File tokenFileMode "tok-B" ]} no_fault.

(** No keyring; the token file has the given mode. *)
Definition file_only_with_mode (mode : Z) (faults : call → bool) : World :=
  host (Some ErrNoAvailImpl) ∅ {[ tokenFile := File mode "tok-A" ]} faults.

(** ** Vocabulary of the specification *)

(** The paths the package derives from a home directory. *)
Definition configDirOf (home : string) : string :=
  home +:+ "/.config/planetscale".

Definition tokenPathOf (home : string) : string :=
  path_Join (configDirOf home) keyringKey.

Definition configPathOf (home : string) : string :=
  path_Join (configDirOf home) configName.

(** The fallback file exists, holds [secret] and can be read. *)
Definition file_holds (w : World) (home secret : string) : Prop :=
  home_dir w = Some home ∧
  (∃ mode, nodes w !! tokenPathOf home = Some (File mode secret)) ∧
  fault w (OsStat (tokenPathOf home)) = false ∧
  fault w (IoReadFile (tokenPathOf home)) = false.

(** The secure store opens and reports NotFound for the key. *)
Definition store_reports_NotFound (w : World) : Prop :=
  open_err w = None ∧
  fault w (KeyringGet keyringKey) = false ∧
  ring_items w !! keyringKey = None.

(** The state in which the read path migrates: NotFound in the store, a
    non-empty secret in the file. *)
Definition migration_pending (w : World) (home secret : string) : Prop :=
  store_reports_NotFound w ∧ file_holds w home secret ∧ secret ≠ "".

(** File-only mode: opening the store fails with BackendUnavailable. *)
Definition file_only (w : World) : Prop :=
  errors_Is (open_err w) ErrNoAvailImpl = true.

(** The part of the host that the package never changes. *)
Definition same_host (w w' : World) : Prop :=
  home_dir w' = home_dir w ∧ open_err w' = open_err w ∧ fault w' = fault w.

(** ReadToken succeeds with [secret]. *)
Definition read_succeeds (w : World) (secret : string) : Prop :=
  ∃ w', readAccessToken w = Returns (secret, None) w'.

(** The fallback-file read hands an error back to its caller. *)
Definition read_path_returns_error (w : World) : Prop :=
  ∃ a e w', readAccessTokenPath w = Returns (a, Some e) w'.

(** The fallback-file read leaves the file with mode 0600 and content
    [secret], which it returns. *)
Definition read_path_repairs (w : World) (home secret : string) : Prop :=
  ∃ w', readAccessTokenPath w = Returns (secret, None) w' ∧
        nodes w' !! tokenPathOf home = Some (File tokenFileMode secret).

(** DeleteToken succeeds and the fallback file is gone afterwards. *)
Definition delete_clears_file (w : World) (home : string) : Prop :=
  ∃ w', DeleteAccessToken w = Returns None w' ∧
        nodes w' !! tokenPathOf home = None.

(** The reads of the token do not fail on this host. *)
Definition reads_cleanly (w : World) : Prop :=
  fault w (KeyringGet keyringKey) = false ∧
  ∀ name, fault w (OsStat name) = false ∧ fault w (IoReadFile name) = false.

(** A filesystem error distinct from absence hits the fallback-file read:
    [os.Stat] fails, or the file is there and [ioutil.ReadFile] fails. *)
Definition file_read_fails (w : World) (home : string) : Prop :=
  fault w (OsStat (tokenPathOf home)) = true ∨
  ∃ mode secret,
    fault w (OsStat (tokenPathOf home)) = false ∧
    nodes w !! tokenPathOf home = Some (File mode secret) ∧
    fault w (IoReadFile (tokenPathOf home)) = true.

(** ReadToken hands an error back to its caller. *)
Definition read_returns_error (w : World) : Prop :=
  ∃ a e w', readAccessToken w = Returns (a, Some e) w'.

(** ** Package config: global.go, and the project paths of config.go *)

(** The errors of this part: [errors.New], [fmt.Errorf] with a [%s] cause
    (and a [%q] path), the errors of the libraries it calls (yaml, exec,
    io/fs), and the errors of the part above. *)
Inductive file_error : Type :=
| ErrorsNew (text : string)
| FmtErrorf (format : string) (quoted : option string) (cause : file_error)
| Foreign (text : string)
| Below (e : error).

Module FileConfig.
Record t : Type := {
  Organization : string;
  Database : string;
  Branch : string
}.
End FileConfig.

(** [ConfigFS]: the [fs.FS] it is built on, seen through [fs.ReadFile]. *)
Record ConfigFS : Type := {
  fsys : string → M (string * option file_error)
}.

Definition NewConfigFS (fsys : string → M (string * option file_error))
  : ConfigFS := {| fsys := fsys |}.

Definition configFileMode : Z := 420.      (* 0644, the literal of Write *)

Definition newline : string := String (ascii_of_nat 10) "".

(** [strings.HasSuffix] and [strings.TrimSuffix]. *)
Definition strings_HasSuffix (s suffix : string) : bool :=
  bool_decide (String.length suffix ≤ String.length s)%nat
  && bool_decide (substring (String.length s - String.length suffix)
                            (String.length suffix) s = suffix).

Definition strings_TrimSuffix (s suffix : string) : string :=
  if strings_HasSuffix s suffix
  then substring 0 (String.length s - String.length suffix) s
  else s.

Section GlobalConfig.

(** [yaml.Marshal] and [yaml.Unmarshal] at [FileConfig], and the run of
    [git rev-parse --show-toplevel] with its combined output. *)
Variable yaml_Marshal : FileConfig.t → string * option file_error.
Variable yaml_Unmarshal : string → FileConfig.t * option file_error.
Variable git_toplevel : M (string * option file_error).

Definition RootGitRepoDir : M (string * option file_error) :=
  '(out, err) ← git_toplevel;
  match err with
  | Some _ => mret ("", Some (ErrorsNew "unable to find git root directory"))
  | None => mret (strings_TrimSuffix out newline, None)
  end.

Definition ProjectConfigPath : M (string * option file_error) :=
  '(basePath, err) ← RootGitRepoDir;
  match err with
  | None => mret (path_Join basePath projectConfigName, None)
  | Some _ => mret (path_Join "" projectConfigName, None)
  end.

Definition ProjectConfigFile : string := projectConfigName.

(** [(c *ConfigFS) NewFileConfig]. *)
Definition NewFileConfig (c : ConfigFS) (path : string)
  : M (option FileConfig.t * option file_error) :=
  '(out, err) ← fsys c path;
  match err with
  | Some _ => mret (None, err)
  | None =>
      let '(cfg, err) := yaml_Unmarshal out in
      match err with
      | Some e =>
          mret (None, Some (FmtErrorf "can't unmarshal file %q: %s" (Some path) e))
      | None => mret (Some cfg, None)
      end
  end.

(** [(c *ConfigFS) DefaultConfig]. *)
Definition DefaultConfig (c : ConfigFS)
  : M (option FileConfig.t * option file_error) :=
  '(configFile, err) ← DefaultConfigPath;
  match err with
  | Some e => mret (None, Some (Below e))
  | None => NewFileConfig c configFile
  end.

(** [(c *ConfigFS) ProjectConfig]. *)
Definition ProjectConfig (c : ConfigFS)
  : M (option FileConfig.t * option file_error) :=
  '(configFile, err) ← ProjectConfigPath;
  match err with
  | Some _ => mret (None, err)
  | None => NewFileConfig c configFile
  end.

(** [(f *FileConfig) Write]. *)
Definition FileConfig_Write (f : FileConfig.t) (path : string)
  : M (option file_error) :=
  if bool_decide (path = "") then mret (Some (ErrorsNew "path is empty"))
  else if bool_decide (FileConfig.Organization f = "")
  then mret (Some (ErrorsNew "fileconfig.Organization must be set"))
  else
    let '(d, err) := yaml_Marshal f in
    match err with
    | Some e => mret (Some (FmtErrorf "can't marshal file config: %s" None e))
    | None =>
        err ← ioutil_WriteFile path d configFileMode;
        mret (Below <$> err)
    end.

(** [(f *FileConfig) WriteDefault]. *)
Definition WriteDefault (f : FileConfig.t) : M (option file_error) :=
  '(configFile, err) ← DefaultConfigPath;
  match err with
  | Some e => mret (Some (Below e))
  | None => FileConfig_Write f configFile
  end.

(** [(f *FileConfig) WriteProject]. *)
Definition WriteProject (f : FileConfig.t) : M (option file_error) :=
  '(cfgFile, err) ← ProjectConfigPath;
  match err with
  | Some _ => mret err
  | None => FileConfig_Write f cfgFile
  end.

End GlobalConfig.

(** A [ConfigFS] on the file system of the host. *)
Definition hostFS : ConfigFS :=
  NewConfigFS (λ name,
    '(data, err) ← ioutil_ReadFile name;
    mret (data, Below <$> err)).

(** A marshaller for the hosts below: the three fields, one per line. *)
Definition lines_Marshal (f : FileConfig.t) : string * option file_error :=
  (FileConfig.Organization f +:+ newline +:+ FileConfig.Database f +:+ newline
   +:+ FileConfig.Branch f, None).

Definition demo_config : FileConfig.t :=
  {| FileConfig.Organization := "acme"; FileConfig.Database := "shop";
     FileConfig.Branch := "main" |}.

Definition demo_Unmarshal (data : string) : FileConfig.t * option file_error :=
  if bool_decide (data = fst (lines_Marshal demo_config))
  then (demo_config, None)
  else ({| FileConfig.Organization := ""; FileConfig.Database := "";
           FileConfig.Branch := "" |}, Some (Foreign "yaml: unmarshal errors")).

(** [git] outside of a repository, and inside of one. *)
Definition git_outside : M (string * option file_error) :=
  λ w, Returns ("fatal: not a git repository" +:+ newline,
                Some (Foreign "exit status 128")) w.

Definition git_inside (dir : string) : M (string * option file_error) :=
  λ w, Returns (dir +:+ newline, None) w.

(** No keyring; the config directory is there and is empty. *)
Definition config_dir_only : World :=
  host (Some ErrNoAvailImpl) ∅
       {[ "/home/dev/.config/planetscale" := Dir 505 ]} no_fault.

(** The token file can be removed, the default config file cannot. *)
Definition config_remove_fails : call → bool :=
  λ c, match c with
       | OsRemove name =>
           bool_decide (name = "/home/dev/.config/planetscale/pscale.yml")
       | _ => false
       end.

(** ** More hosts *)

Definition get_fails : call → bool :=
  λ c, match c with KeyringGet _ => true | _ => false end.

Definition chmod_fails : call → bool :=
  λ c, match c with OsChmod _ _ => true | _ => false end.

Definition mkdir_fails : call → bool :=
  λ c, match c with OsMkdirAll _ _ => true | _ => false end.

(** A host whose home directory does not resolve. *)
Definition homeless (open : option error) : World :=
  mkWorld None open ∅ ∅ no_fault [].

(** A keyring that holds nothing, and nothing on disk. *)
Definition empty_store : World := host None ∅ ∅ no_fault.

(** A keyring that holds nothing, next to an empty token file. *)
Definition empty_token_file : World :=
  host None ∅ {[ tokenFile := File tokenFileMode "" ]} no_fault.

(** A keyring that holds one token while the file holds another. *)
Definition two_tokens (faults : call → bool) : World :=
  host None {[ keyringKey := "tok-A" ]}
       {[ tokenFile := File tokenFileMode "tok-B" ]} faults.

(** No keyring; a directory sits where the token file should be. *)
Definition directory_in_the_way : World :=
  host (Some ErrNoAvailImpl) ∅ {[ tokenFile := Dir 493 ]} no_fault.

(** No keyring; the config directory exists and holds a token file of
    mode 0644. *)
Definition loose_token_file : World :=
  host (Some ErrNoAvailImpl) ∅
       {[ "/home/dev/.config/planetscale" := Dir 505;
          tokenFile := File 420 "tok-old" ]} no_fault.

(** * Properties *)

(** ** Running the monad *)

Arguments configDirOf : simpl never.
Arguments tokenPathOf : simpl never.
Arguments configPathOf : simpl never.

Lemma bind_unfold {A B : Type} (m : M A) (f : A → M B) (w : World) :
  (m ≫= f) w =
  match m w with
  | Returns a w' => f a w'
  | Exits w' => Exits w'
  | Panics w' => Panics w'
  end.
Proof. reflexivity. Qed.

Lemma enter_eq (c : call) (w : World) :
  enter c w = Returns (fault w c) (record (Call c) w).
Proof. reflexivity. Qed.

(** One step of a computation: unfold the bind, run its first call with
    the given equation. *)
Ltac mstep lem := rewrite bind_unfold, lem; cbn beta iota.

(** The same for a call of the environment, given how its fault flag and
    the state it looks at are. *)
Ltac prim def :=
  unfold def; cbn [Key Data]; mstep enter_eq;
  repeat match goal with
         | H : fault _ _ = _ |- _ => rewrite H
         end;
  cbn;
  repeat match goal with
         | H : _ !! _ = _ |- _ => rewrite H
         end;
  try reflexivity.

(** ** The environment *)

Section Environment.
Variable w : World.

Lemma os_Stat_fault name :
  fault w (OsStat name) = true →
  os_Stat name w =
    Returns (None, Some (ErrFault (OsStat name))) (record (Call (OsStat name)) w).
Proof. intros Hf. prim os_Stat. Qed.

Lemma os_Stat_node name n :
  fault w (OsStat name) = false →
  nodes w !! name = Some n →
  os_Stat name w =
    Returns (Some {| Mode := match n with
                             | File mode _ => mode
                             | Dir perm => Z.lor ModeDir perm
                             end |}, None)
            (record (Call (OsStat name)) w).
Proof. intros Hf Hn. prim os_Stat. by destruct n. Qed.

Lemma os_Stat_missing name :
  fault w (OsStat name) = false →
  nodes w !! name = None →
  os_Stat name w =
    Returns (None, Some (ErrNotExist (OsStat name))) (record (Call (OsStat name)) w).
Proof. intros Hf Hn. prim os_Stat. Qed.

Lemma os_Chmod_fault name mode :
  fault w (OsChmod name mode) = true →
  os_Chmod name mode w =
    Returns (Some (ErrFault (OsChmod name mode)))
            (record (Call (OsChmod name mode)) w).
Proof. intros Hf. prim os_Chmod. Qed.

Lemma os_Chmod_file name mode old data :
  fault w (OsChmod name mode) = false →
  nodes w !! name = Some (File old data) →
  os_Chmod name mode w =
    Returns None
            (with_nodes (<[name := File mode data]> (nodes w))
                        (record (Call (OsChmod name mode)) w)).
Proof. intros Hf Hn. prim os_Chmod. Qed.

Lemma os_Remove_fault name :
  fault w (OsRemove name) = true →
  os_Remove name w =
    Returns (Some (ErrFault (OsRemove name))) (record (Call (OsRemove name)) w).
Proof. intros Hf. prim os_Remove. Qed.

Lemma os_Remove_node name n :
  fault w (OsRemove name) = false →
  nodes w !! name = Some n →
  os_Remove name w =
    Returns None (with_nodes (delete name (nodes w))
                             (record (Call (OsRemove name)) w)).
Proof. intros Hf Hn. prim os_Remove. Qed.

Lemma os_Remove_missing name :
  fault w (OsRemove name) = false →
  nodes w !! name = None →
  os_Remove name w =
    Returns (Some (ErrNotExist (OsRemove name))) (record (Call (OsRemove name)) w).
Proof. intros Hf Hn. prim os_Remove. Qed.

Lemma ioutil_ReadFile_fault name :
  fault w (IoReadFile name) = true →
  ioutil_ReadFile name w =
    Returns ("", Some (ErrFault (IoReadFile name)))
            (record (Call (IoReadFile name)) w).
Proof. intros Hf. prim ioutil_ReadFile. Qed.

Lemma ioutil_ReadFile_file name mode data :
  fault w (IoReadFile name) = false →
  nodes w !! name = Some (File mode data) →
  ioutil_ReadFile name w =
    Returns (data, None) (record (Call (IoReadFile name)) w).
Proof. intros Hf Hn. prim ioutil_ReadFile. Qed.

Lemma ring_Get_found service key data :
  fault w (KeyringGet key) = false →
  ring_items w !! key = Some data →
  ring_Get (Backend service) key w =
    Returns ({| Key := key; Data := data |}, None)
            (record (Call (KeyringGet key)) w).
Proof. intros Hf Hn. prim ring_Get. Qed.

Lemma ring_Get_missing service key :
  fault w (KeyringGet key) = false →
  ring_items w !! key = None →
  ring_Get (Backend service) key w =
    Returns ({| Key := ""; Data := "" |}, Some ErrKeyNotFound)
            (record (Call (KeyringGet key)) w).
Proof. intros Hf Hn. prim ring_Get. Qed.

Lemma ring_Set_fault service key data :
  fault w (KeyringSet key data) = true →
  ring_Set (Backend service) {| Key := key; Data := data |} w =
    Returns (Some (ErrFault (KeyringSet key data)))
            (record (Call (KeyringSet key data)) w).
Proof. intros Hf. prim ring_Set. Qed.

Lemma ring_Set_ok service key data :
  fault w (KeyringSet key data) = false →
  ring_Set (Backend service) {| Key := key; Data := data |} w =
    Returns None
            (with_items (<[key := data]> (ring_items w))
                        (record (Call (KeyringSet key data)) w)).
Proof. intros Hf. prim ring_Set. Qed.

Lemma openKeyring_ok :
  open_err w = None →
  openKeyring w =
    Returns (Backend keyringService, None) (record (Call KeyringOpen) w).
Proof. intros H. unfold openKeyring, keyring_Open. by rewrite H. Qed.

Lemma openKeyring_err e :
  open_err w = Some e →
  openKeyring w = Returns (NilKeyring, Some e) (record (Call KeyringOpen) w).
Proof. intros H. unfold openKeyring, keyring_Open. by rewrite H. Qed.

(** *** Paths *)

Lemma ConfigDir_home home :
  home_dir w = Some home → ConfigDir w = Returns (configDirOf home, None) w.
Proof. intros H. unfold ConfigDir. rewrite bind_unfold. cbn. by rewrite H. Qed.

Lemma ConfigDir_no_home :
  home_dir w = None →
  ConfigDir w =
    Returns ("", Some (Errorf "can't expand path %q: %s" ErrHomeDir)) w.
Proof. intros H. unfold ConfigDir. rewrite bind_unfold. cbn. by rewrite H. Qed.

Lemma accessTokenPath_home home :
  home_dir w = Some home →
  accessTokenPath w = Returns (tokenPathOf home, None) w.
Proof. intros H. unfold accessTokenPath. by mstep (ConfigDir_home home H). Qed.

Lemma DefaultConfigPath_home home :
  home_dir w = Some home →
  DefaultConfigPath w = Returns (configPathOf home, None) w.
Proof. intros H. unfold DefaultConfigPath. by mstep (ConfigDir_home home H). Qed.
End Environment.

(** ** Reading the fallback file *)

Section ReadPath.
Variables (w : World) (home : string).
Hypothesis Hhome : home_dir w = Some home.

Local Abbreviation tokenPath := (tokenPathOf home).

(** The file is absent: the NotExist error of [os.Stat] is returned. *)
Lemma readAccessTokenPath_missing :
  fault w (OsStat tokenPath) = false →
  nodes w !! tokenPath = None →
  readAccessTokenPath w =
    Returns ("", Some (ErrNotExist (OsStat tokenPath)))
            (record (Call (OsStat tokenPath)) w).
Proof.
  intros Hs Hn. unfold readAccessTokenPath.
  mstep (accessTokenPath_home w home Hhome).
  by mstep (os_Stat_missing w tokenPath Hs Hn).
Qed.

(** [os.Stat] fails otherwise: the process ends in [log.Fatal]. *)
Lemma readAccessTokenPath_stat_fault :
  fault w (OsStat tokenPath) = true →
  readAccessTokenPath w =
    Exits (record (LogFatal (ErrFault (OsStat tokenPath)))
                  (record (Call (OsStat tokenPath)) w)).
Proof.
  intros Hs. unfold readAccessTokenPath.
  mstep (accessTokenPath_home w home Hhome).
  by mstep (os_Stat_fault w tokenPath Hs).
Qed.

Variables (mode : Z) (secret : string).
Hypothesis Hstat : fault w (OsStat tokenPath) = false.
Hypothesis Hfile : nodes w !! tokenPath = Some (File mode secret).

(** No bit outside 0600: the file is read as it is. *)
Lemma readAccessTokenPath_tight :
  Z.ldiff mode tokenFileMode = 0 →
  fault w (IoReadFile tokenPath) = false →
  readAccessTokenPath w =
    Returns (secret, None)
            (record (Call (IoReadFile tokenPath))
                    (record (Call (OsStat tokenPath)) w)).
Proof.
  intros Hm Hr. unfold readAccessTokenPath.
  mstep (accessTokenPath_home w home Hhome).
  mstep (os_Stat_node w tokenPath _ Hstat Hfile).
  rewrite bind_unfold. cbn [Mode].
  rewrite bool_decide_eq_false_2 by (intros H; by apply H).
  cbn beta iota. unfold mret at 1, M_ret at 1.
  by mstep (ioutil_ReadFile_file (record (Call (OsStat tokenPath)) w)
                                 tokenPath mode secret Hr Hfile).
Qed.

(** A bit outside 0600 and [os.Chmod] works: the mode is 0600 when the
    file is read. *)
Lemma readAccessTokenPath_loose :
  Z.ldiff mode tokenFileMode ≠ 0 →
  fault w (OsChmod tokenPath tokenFileMode) = false →
  fault w (IoReadFile tokenPath) = false →
  readAccessTokenPath w =
    Returns (secret, None)
            (record (Call (IoReadFile tokenPath))
               (with_nodes (<[tokenPath := File tokenFileMode secret]> (nodes w))
                  (record (Call (OsChmod tokenPath tokenFileMode))
                     (record (Call (OsStat tokenPath)) w)))).
Proof.
  intros Hm Hc Hr. unfold readAccessTokenPath.
  mstep (accessTokenPath_home w home Hhome).
  mstep (os_Stat_node w tokenPath _ Hstat Hfile).
  rewrite bind_unfold. cbn [Mode].
  rewrite bool_decide_eq_true_2 by done.
  mstep (os_Chmod_file (record (Call (OsStat tokenPath)) w)
                       tokenPath tokenFileMode mode secret Hc Hfile).
  unfold mret at 1, M_ret at 1.
  rewrite bind_unfold.
  erewrite ioutil_ReadFile_file; [reflexivity | exact Hr |].
  cbn. apply lookup_insert_eq.
Qed.

(** A bit outside 0600 and [os.Chmod] fails: a log line, and the file is
    read with the mode it has. *)
Lemma readAccessTokenPath_loose_chmod_fault :
  Z.ldiff mode tokenFileMode ≠ 0 →
  fault w (OsChmod tokenPath tokenFileMode) = true →
  fault w (IoReadFile tokenPath) = false →
  readAccessTokenPath w =
    Returns (secret, None)
            (record (Call (IoReadFile tokenPath))
               (record (LogPrintf "Unable to change %v file mode to 0%o: %v"
                                  tokenPath tokenFileMode
                                  (ErrFault (OsChmod tokenPath tokenFileMode)))
                  (record (Call (OsChmod tokenPath tokenFileMode))
                     (record (Call (OsStat tokenPath)) w)))).
Proof.
  intros Hm Hc Hr. unfold readAccessTokenPath.
  mstep (accessTokenPath_home w home Hhome).
  mstep (os_Stat_node w tokenPath _ Hstat Hfile).
  rewrite bind_unfold. cbn [Mode].
  rewrite bool_decide_eq_true_2 by done.
  mstep (os_Chmod_fault (record (Call (OsStat tokenPath)) w)
                        tokenPath tokenFileMode Hc).
  unfold log_Printf at 1.
  rewrite bind_unfold.
  erewrite ioutil_ReadFile_file; [reflexivity | exact Hr | exact Hfile].
Qed.

(** [ioutil.ReadFile] fails: the process ends in [log.Fatal]. *)
Lemma readAccessTokenPath_read_fault :
  fault w (IoReadFile tokenPath) = true →
  ∃ w', readAccessTokenPath w = Exits w' ∧
        last (trace w') = Some (LogFatal (ErrFault (IoReadFile tokenPath))).
Proof.
  intros Hr. unfold readAccessTokenPath.
  mstep (accessTokenPath_home w home Hhome).
  mstep (os_Stat_node w tokenPath _ Hstat Hfile).
  rewrite bind_unfold. cbn [Mode].
  assert (Hfatal : ∀ w1 : World,
    fault w1 (IoReadFile tokenPath) = true →
    ∃ w', (ioutil_ReadFile tokenPath
             ≫= λ '(accessToken, err),
                  match err with
                  | Some e => log_Fatal e
                  | None => mret ()
                  end ≫= λ _ : (), mret (accessToken, @None error)) w1
          = Exits w' ∧
          last (trace w') = Some (LogFatal (ErrFault (IoReadFile tokenPath)))).
  { intros w1 H1. mstep (ioutil_ReadFile_fault w1 tokenPath H1).
    eexists; split; [reflexivity |]. cbn. by rewrite last_snoc. }
  case_bool_decide as Hm; [| by apply Hfatal].
  rewrite bind_unfold.
  destruct (fault w (OsChmod tokenPath tokenFileMode)) eqn:Hc.
  - rewrite (os_Chmod_fault (record (Call (OsStat tokenPath)) w)
                            tokenPath tokenFileMode Hc).
    by apply Hfatal.
  - rewrite (os_Chmod_file (record (Call (OsStat tokenPath)) w)
                           tokenPath tokenFileMode mode secret Hc Hfile).
    by apply Hfatal.
Qed.

(** Whatever the mode: the secret is returned, the file still holds it,
    and nothing else of the world has changed. *)
Lemma readAccessTokenPath_holds :
  fault w (IoReadFile tokenPath) = false →
  ∃ w', readAccessTokenPath w = Returns (secret, None) w' ∧
        (∃ mode', nodes w' !! tokenPath = Some (File mode' secret)) ∧
        (∀ name, name ≠ tokenPath → nodes w' !! name = nodes w !! name) ∧
        ring_items w' = ring_items w ∧
        same_host w w'.
Proof.
  intros Hr.
  destruct (decide (Z.ldiff mode tokenFileMode = 0)) as [Hm|Hm].
  - rewrite (readAccessTokenPath_tight Hm Hr).
    eexists; split; [reflexivity |]. cbn.
    split; [by eexists |]. by repeat split.
  - destruct (fault w (OsChmod tokenPath tokenFileMode)) eqn:Hc.
    + rewrite (readAccessTokenPath_loose_chmod_fault Hm Hc Hr).
      eexists; split; [reflexivity |]. cbn.
      split; [by eexists |]. by repeat split.
    + rewrite (readAccessTokenPath_loose Hm Hc Hr).
      eexists; split; [reflexivity |]. cbn.
      split; [eexists; apply lookup_insert_eq |].
      split; [intros name Hne; by apply lookup_insert_ne |].
      by repeat split.
Qed.
End ReadPath.

(** ** The read path *)

Lemma errors_Is_sentinel (e : error) : errors_Is (Some e) e = true.
Proof. destruct e; cbn; by rewrite bool_decide_eq_true_2. Qed.

Lemma nonempty_length (s : string) : s ≠ "" → (0 < String.length s)%nat.
Proof. destruct s; [done | cbn; lia]. Qed.

(** What [readAccessToken] still has to do in file-only mode. *)
Lemma readAccessToken_file_only (w : World) :
  file_only w →
  readAccessToken w =
    (readAccessTokenPath ≫= λ '(accessToken, tokenErr), mret (accessToken, tokenErr))
      (record (Call KeyringOpen) w).
Proof.
  unfold file_only. intros Hmode. unfold readAccessToken.
  destruct (open_err w) as [e|] eqn:Hopen; [| done].
  mstep (openKeyring_err w e Hopen). by rewrite Hmode.
Qed.

(** What it still has to do once the store has reported NotFound. *)
Lemma readAccessToken_not_found (w : World) :
  store_reports_NotFound w →
  readAccessToken w =
    (readAccessTokenPath ≫= λ '(accessToken, tokenErr),
       if bool_decide (0 < String.length accessToken)%nat
          && bool_decide (tokenErr = None)
       then migrateAccessToken (Backend keyringService) accessToken
       else mret ("", None))
      (record (Call (KeyringGet keyringKey)) (record (Call KeyringOpen) w)).
Proof.
  intros (Hopen & Hget & Hitem). unfold readAccessToken.
  mstep (openKeyring_ok w Hopen). cbn [errors_Is].
  by mstep (ring_Get_missing (record (Call KeyringOpen) w)
                             keyringService keyringKey Hget Hitem).
Qed.

(** The store holds the key: its data is the token. *)
Lemma readAccessToken_found (w : World) (secret : string) :
  open_err w = None →
  fault w (KeyringGet keyringKey) = false →
  ring_items w !! keyringKey = Some secret →
  readAccessToken w =
    Returns (secret, None)
            (record (Call (KeyringGet keyringKey)) (record (Call KeyringOpen) w)).
Proof.
  intros Hopen Hget Hitem. unfold readAccessToken.
  mstep (openKeyring_ok w Hopen). cbn [errors_Is].
  by mstep (ring_Get_found (record (Call KeyringOpen) w)
                           keyringService keyringKey secret Hget Hitem).
Qed.

(** *** Migration *)

Section Migration.
Variables (w : World) (home secret : string).
Hypothesis Hhome : home_dir w = Some home.

Local Abbreviation tokenPath := (tokenPathOf home).
Local Abbreviation ring := (Backend keyringService).
Local Abbreviation set_call := (KeyringSet keyringKey secret).

Lemma migrateAccessToken_set_fault :
  fault w set_call = true →
  migrateAccessToken ring secret w =
    Returns ("", Some (ErrFault set_call)) (record (Call set_call) w).
Proof.
  intros Hset. unfold migrateAccessToken.
  by mstep (ring_Set_fault w keyringService keyringKey secret Hset).
Qed.

Lemma migrateAccessToken_remove_fault :
  fault w set_call = false →
  fault w (OsRemove tokenPath) = true →
  migrateAccessToken ring secret w =
    Returns ("", Some (ErrFault (OsRemove tokenPath)))
            (record (Call (OsRemove tokenPath))
               (with_items (<[keyringKey := secret]> (ring_items w))
                  (record (Call set_call) w))).
Proof.
  intros Hset Hrm. unfold migrateAccessToken.
  mstep (ring_Set_ok w keyringService keyringKey secret Hset).
  rewrite bind_unfold, (accessTokenPath_home _ home) by exact Hhome.
  cbn beta iota.
  rewrite bind_unfold, os_Remove_fault by exact Hrm.
  reflexivity.
Qed.

Lemma migrateAccessToken_done (n : node) :
  fault w set_call = false →
  fault w (OsRemove tokenPath) = false →
  nodes w !! tokenPath = Some n →
  migrateAccessToken ring secret w =
    Returns (secret, None)
            (with_nodes (delete tokenPath (nodes w))
               (record (Call (OsRemove tokenPath))
                  (with_items (<[keyringKey := secret]> (ring_items w))
                     (record (Call set_call) w)))).
Proof.
  intros Hset Hrm Hnode. unfold migrateAccessToken.
  mstep (ring_Set_ok w keyringService keyringKey secret Hset).
  rewrite bind_unfold, (accessTokenPath_home _ home) by exact Hhome.
  cbn beta iota.
  rewrite bind_unfold, (os_Remove_node _ _ n) by (exact Hrm || exact Hnode).
  reflexivity.
Qed.
End Migration.

(** The read path up to the point where it migrates. *)
Lemma readAccessToken_migrates (w : World) (home secret : string) :
  migration_pending w home secret →
  ∃ w1, readAccessToken w = migrateAccessToken (Backend keyringService) secret w1 ∧
        (∃ mode, nodes w1 !! tokenPathOf home = Some (File mode secret)) ∧
        ring_items w1 = ring_items w ∧
        same_host w w1.
Proof.
  intros (Hstore & (Hhome & [mode Hfile] & Hstat & Hread) & Hne).
  rewrite (readAccessToken_not_found w Hstore).
  set (w0 := record (Call (KeyringGet keyringKey)) (record (Call KeyringOpen) w)).
  destruct (readAccessTokenPath_holds w0 home Hhome mode secret Hstat Hfile Hread)
    as (w1 & Hrun & Hkept & _ & Hitems & Hsame).
  exists w1. rewrite bind_unfold, Hrun. cbn beta iota.
  rewrite (bool_decide_eq_true_2 _ (nonempty_length secret Hne)).
  rewrite bool_decide_eq_true_2 by done.
  repeat split; try done; apply Hsame.
Qed.

(** Closes the premises of a claim on one of the hosts above. *)
Ltac on_host :=
  repeat split;
  first [ reflexivity | discriminate | by vm_compute | eexists; by vm_compute ].

(** C1, counterexample.  The store reports NotFound, the file holds
    ["tok-B"] and [Set] fails: ReadToken does not succeed with ["tok-B"];
    it returns the error of [Set] and no token. *)
Lemma set_failure_fails_the_read :
  migration_pending (unmigrated set_fails) "/home/dev" "tok-B" ∧
  fault (unmigrated set_fails) (KeyringSet keyringKey "tok-B") = true ∧
  ¬ read_succeeds (unmigrated set_fails) "tok-B" ∧
  ∃ w', readAccessToken (unmigrated set_fails) =
          Returns ("", Some (ErrFault (KeyringSet keyringKey "tok-B"))) w'.
Proof.
  split; [on_host |]. split; [reflexivity |]. split.
  - intros (w' & Hrun). vm_compute in Hrun. discriminate.
  - eexists. vm_compute. reflexivity.
Qed.

(** C1, amended.  In the migration step, when the [Set] of S into the
    secure store fails, ReadToken returns that error and an empty token;
    the fallback file is not deleted and still holds S, and the store is
    as it was. *)
Theorem migration_set_failure (w : World) (home secret : string) :
  migration_pending w home secret →
  fault w (KeyringSet keyringKey secret) = true →
  ∃ w', readAccessToken w =
          Returns ("", Some (ErrFault (KeyringSet keyringKey secret))) w' ∧
        (∃ mode, nodes w' !! tokenPathOf home = Some (File mode secret)) ∧
        ring_items w' = ring_items w.
Proof.
  intros Hpending Hset.
  destruct (readAccessToken_migrates w home secret Hpending)
    as (w1 & -> & Hkept & Hitems & (Hhome & _ & Hfault)).
  rewrite migrateAccessToken_set_fault by (by rewrite Hfault).
  eexists; split; [reflexivity |]. by cbn.
Qed.

Lemma migration_set_failure_witness :
  ∃ w', readAccessToken (unmigrated set_fails) =
          Returns ("", Some (ErrFault (KeyringSet keyringKey "tok-B"))) w' ∧
        (∃ mode, nodes w' !! tokenPathOf "/home/dev" = Some (File mode "tok-B")) ∧
        ring_items w' = ring_items (unmigrated set_fails).
Proof.
  apply (migration_set_failure (unmigrated set_fails) "/home/dev" "tok-B");
    [on_host | reflexivity].
Defined.

(** C2, counterexample.  [Set] succeeds and the deletion of the file
    fails: ReadToken is not successful, it returns the error of
    [os.Remove] and no token. *)
Lemma delete_failure_fails_the_read :
  migration_pending (unmigrated remove_fails) "/home/dev" "tok-B" ∧
  fault (unmigrated remove_fails) (KeyringSet keyringKey "tok-B") = false ∧
  fault (unmigrated remove_fails) (OsRemove (tokenPathOf "/home/dev")) = true ∧
  ¬ read_succeeds (unmigrated remove_fails) "tok-B" ∧
  ∃ w', readAccessToken (unmigrated remove_fails) =
          Returns ("", Some (ErrFault (OsRemove (tokenPathOf "/home/dev")))) w'.
Proof.
  split; [on_host |]. do 2 (split; [reflexivity |]). split.
  - intros (w' & Hrun). vm_compute in Hrun. discriminate.
  - eexists. vm_compute. reflexivity.
Qed.

(** C2, amended.  In the migration step, when [Set] succeeds and the
    deletion of the fallback file fails, ReadToken returns the error of the
    deletion and an empty token; the secure store then holds S and the
    file still holds S as well. *)
Theorem migration_delete_failure (w : World) (home secret : string) :
  migration_pending w home secret →
  fault w (KeyringSet keyringKey secret) = false →
  fault w (OsRemove (tokenPathOf home)) = true →
  ∃ w', readAccessToken w =
          Returns ("", Some (ErrFault (OsRemove (tokenPathOf home)))) w' ∧
        ring_items w' !! keyringKey = Some secret ∧
        ∃ mode, nodes w' !! tokenPathOf home = Some (File mode secret).
Proof.
  intros Hpending Hset Hrm.
  destruct (readAccessToken_migrates w home secret Hpending)
    as (w1 & -> & Hkept & Hitems & (Hhome & _ & Hfault)).
  assert (Hhome1 : home_dir w1 = Some home)
    by (rewrite Hhome; apply Hpending).
  rewrite (migrateAccessToken_remove_fault w1 home secret Hhome1)
    by (by rewrite Hfault).
  eexists; split; [reflexivity |]. cbn.
  split; [apply lookup_insert_eq | done].
Qed.

Lemma migration_delete_failure_witness :
  ∃ w', readAccessToken (unmigrated remove_fails) =
          Returns ("", Some (ErrFault (OsRemove (tokenPathOf "/home/dev")))) w' ∧
        ring_items w' !! keyringKey = Some "tok-B" ∧
        ∃ mode, nodes w' !! tokenPathOf "/home/dev" = Some (File mode "tok-B").
Proof.
  apply (migration_delete_failure (unmigrated remove_fails) "/home/dev" "tok-B");
    [on_host | reflexivity | reflexivity].
Defined.

(** C3.  The store reports NotFound for the key, the fallback file holds
    a non-empty secret S, and [Set] and the deletion of the file succeed:
    ReadToken returns S; afterwards the store holds S under the key and
    the fallback file no longer exists. *)
Theorem migration_moves_the_secret (w : World) (home secret : string) :
  migration_pending w home secret →
  fault w (KeyringSet keyringKey secret) = false →
  fault w (OsRemove (tokenPathOf home)) = false →
  ∃ w', readAccessToken w = Returns (secret, None) w' ∧
        ring_items w' !! keyringKey = Some secret ∧
        nodes w' !! tokenPathOf home = None.
Proof.
  intros Hpending Hset Hrm.
  destruct (readAccessToken_migrates w home secret Hpending)
    as (w1 & -> & [mode Hkept] & Hitems & (Hhome & _ & Hfault)).
  assert (Hhome1 : home_dir w1 = Some home)
    by (rewrite Hhome; apply Hpending).
  rewrite (migrateAccessToken_done w1 home secret Hhome1 (File mode secret))
    by (done || by rewrite Hfault).
  eexists; split; [reflexivity |]. cbn.
  split; [apply lookup_insert_eq | apply lookup_delete_eq].
Qed.

Lemma migration_moves_the_secret_witness :
  ∃ w', readAccessToken (unmigrated no_fault) = Returns ("tok-B", None) w' ∧
        ring_items w' !! keyringKey = Some "tok-B" ∧
        nodes w' !! tokenPathOf "/home/dev" = None.
Proof.
  apply (migration_moves_the_secret (unmigrated no_fault) "/home/dev" "tok-B");
    [on_host | reflexivity | reflexivity].
Defined.

(** ** File-only mode *)

(** The sibling path: with a store that reports NotFound, an absent file
    is "no credential" and no error. *)
Lemma readAccessToken_both_empty (w : World) (home : string) :
  store_reports_NotFound w →
  home_dir w = Some home →
  fault w (OsStat (tokenPathOf home)) = false →
  nodes w !! tokenPathOf home = None →
  ∃ w', readAccessToken w = Returns ("", None) w'.
Proof.
  intros Hstore Hhome Hstat Hnone.
  rewrite (readAccessToken_not_found w Hstore).
  rewrite bind_unfold, (readAccessTokenPath_missing _ home) by done.
  by eexists.
Qed.

(** C4.  In file-only mode with the fallback file absent, ReadToken does
    not return "no credential" without error: it returns the NotExist error
    of [os.Stat], and [New] hands that error to the caller of the package. *)
Theorem file_only_absent_file_is_an_error (w : World) (home : string) :
  file_only w →
  home_dir w = Some home →
  fault w (OsStat (tokenPathOf home)) = false →
  nodes w !! tokenPathOf home = None →
  ∃ w', readAccessToken w =
          Returns ("", Some (ErrNotExist (OsStat (tokenPathOf home)))) w' ∧
        New w = Returns (None, Some (ErrNotExist (OsStat (tokenPathOf home)))) w'.
Proof.
  intros Hmode Hhome Hstat Hnone.
  assert (Hrun : readAccessToken w =
            Returns ("", Some (ErrNotExist (OsStat (tokenPathOf home))))
                    (record (Call (OsStat (tokenPathOf home)))
                            (record (Call KeyringOpen) w))).
  { rewrite (readAccessToken_file_only w Hmode).
    by rewrite bind_unfold, (readAccessTokenPath_missing _ home). }
  eexists; split; [exact Hrun |].
  unfold New. by rewrite bind_unfold, Hrun.
Qed.

Lemma file_only_absent_file_is_an_error_witness :
  ∃ w', readAccessToken fresh_file_only =
          Returns ("", Some (ErrNotExist (OsStat (tokenPathOf "/home/dev")))) w' ∧
        New fresh_file_only =
          Returns (None, Some (ErrNotExist (OsStat (tokenPathOf "/home/dev")))) w'.
Proof.
  apply (file_only_absent_file_is_an_error fresh_file_only "/home/dev");
    reflexivity.
Defined.

(** ** Permission repair *)

(** [mode &^ 0600 = 0] says that no bit of [mode] lies outside 0600, that
    is outside bits 7 and 8. *)
Lemma tokenFileMode_bits (i : Z) :
  Z.testbit tokenFileMode i = true ↔ i = 7 ∨ i = 8.
Proof.
  split.
  - intros Hbit. destruct (Z_lt_dec i 0) as [Hneg|Hpos].
    + by rewrite Z.testbit_neg_r in Hbit.
    + destruct (Z_lt_dec i 9) as [Hlow|Hhigh].
      * assert (Hcases : i = 0 ∨ i = 1 ∨ i = 2 ∨ i = 3 ∨ i = 4 ∨ i = 5 ∨
                         i = 6 ∨ i = 7 ∨ i = 8) by lia.
        repeat (destruct Hcases as [-> | Hcases]; [by auto |]).
        subst; auto.
      * rewrite Z.bits_above_log2 in Hbit; [done | done |].
        unfold tokenFileMode. change (Z.log2 384) with 8. lia.
  - by intros [-> | ->].
Qed.

Lemma tokenFileMode_covers (mode : Z) :
  Z.ldiff mode tokenFileMode = 0 ↔
  ∀ i, Z.testbit mode i = true → i = 7 ∨ i = 8.
Proof.
  split.
  - intros Hzero i Hbit.
    apply tokenFileMode_bits.
    assert (Hi : Z.testbit (Z.ldiff mode tokenFileMode) i = false)
      by (rewrite Hzero; apply Z.bits_0).
    rewrite Z.ldiff_spec, Hbit in Hi.
    by destruct (Z.testbit tokenFileMode i).
  - intros Hsub. apply Z.bits_inj'. intros i _.
    rewrite Z.ldiff_spec, Z.bits_0.
    destruct (Z.testbit mode i) eqn:Hbit; [| done].
    apply Hsub, tokenFileMode_bits in Hbit. by rewrite Hbit.
Qed.

(** C7, counterexample.  A fallback file of mode 0400 is not of mode 0600,
    yet the read leaves its mode as it is. *)
Lemma mode_0400_is_not_repaired :
  nodes (file_only_with_mode 256 no_fault) !! tokenPathOf "/home/dev"
    = Some (File 256 "tok-A") ∧
  256 ≠ tokenFileMode ∧
  ¬ read_path_repairs (file_only_with_mode 256 no_fault) "/home/dev" "tok-A" ∧
  ∃ w', readAccessTokenPath (file_only_with_mode 256 no_fault)
          = Returns ("tok-A", None) w' ∧
        nodes w' !! tokenPathOf "/home/dev" = Some (File 256 "tok-A").
Proof.
  split; [by vm_compute |]. split; [done |]. split.
  - intros (w' & Hrun & Hmode). vm_compute in Hrun.
    injection Hrun as <-. vm_compute in Hmode. discriminate.
  - eexists. split; by vm_compute.
Qed.

(** C7, amended.  Before a fallback-file read, whenever the mode of the
    file has a bit outside 0600 ([mode &^ 0600 ≠ 0]), the mode is set to
    0600 in place before the content is read, and the content is returned
    unchanged; a mode without such a bit, 0400 for one, is left as it is. *)
Theorem read_repairs_loose_modes (w : World) (home secret : string) (mode : Z) :
  home_dir w = Some home →
  nodes w !! tokenPathOf home = Some (File mode secret) →
  fault w (OsStat (tokenPathOf home)) = false →
  fault w (OsChmod (tokenPathOf home) tokenFileMode) = false →
  fault w (IoReadFile (tokenPathOf home)) = false →
  ∃ w', readAccessTokenPath w = Returns (secret, None) w' ∧
        if bool_decide (Z.ldiff mode tokenFileMode ≠ 0)
        then nodes w' !! tokenPathOf home = Some (File tokenFileMode secret) ∧
             trace w' = (trace w ++ [Call (OsStat (tokenPathOf home));
                                    Call (OsChmod (tokenPathOf home) tokenFileMode);
                                    Call (IoReadFile (tokenPathOf home))])%list
        else nodes w' = nodes w ∧
             trace w' = (trace w ++ [Call (OsStat (tokenPathOf home));
                                    Call (IoReadFile (tokenPathOf home))])%list.
Proof.
  intros Hhome Hfile Hstat Hchmod Hread.
  case_bool_decide as Hm.
  - rewrite (readAccessTokenPath_loose w home Hhome mode secret) by done.
    eexists; split; [reflexivity |]. cbn.
    split; [apply lookup_insert_eq | by rewrite <- !app_assoc].
  - assert (Hzero : Z.ldiff mode tokenFileMode = 0)
      by (destruct (decide (Z.ldiff mode tokenFileMode = 0)); done).
    rewrite (readAccessTokenPath_tight w home Hhome mode secret) by done.
    eexists; split; [reflexivity |]. cbn.
    split; [done | by rewrite <- !app_assoc].
Qed.

Lemma read_repairs_loose_modes_witness :
  ∃ w', readAccessTokenPath (file_only_with_mode 420 no_fault)
          = Returns ("tok-A", None) w' ∧
        if bool_decide (Z.ldiff 420 tokenFileMode ≠ 0)
        then nodes w' !! tokenPathOf "/home/dev" = Some (File tokenFileMode "tok-A") ∧
             trace w' = (trace (file_only_with_mode 420 no_fault)
                        ++ [Call (OsStat (tokenPathOf "/home/dev"));
                            Call (OsChmod (tokenPathOf "/home/dev") tokenFileMode);
                            Call (IoReadFile (tokenPathOf "/home/dev"))])%list
        else nodes w' = nodes (file_only_with_mode 420 no_fault) ∧
             trace w' = (trace (file_only_with_mode 420 no_fault)
                        ++ [Call (OsStat (tokenPathOf "/home/dev"));
                            Call (IoReadFile (tokenPathOf "/home/dev"))])%list.
Proof.
  apply (read_repairs_loose_modes (file_only_with_mode 420 no_fault)
                                  "/home/dev" "tok-A" 420);
    first [ reflexivity | by vm_compute ].
Defined.

(** ** I/O failures of the fallback-file read *)

(** C8, counterexample.  [os.Stat] fails with an error that is not
    NotExist: no error reaches the caller, neither of the file read nor of
    ReadToken; the process is ended. *)
Lemma stat_failure_is_not_returned :
  file_read_fails (file_only_with_mode tokenFileMode stat_fails) "/home/dev" ∧
  ¬ read_path_returns_error (file_only_with_mode tokenFileMode stat_fails) ∧
  ¬ read_returns_error (file_only_with_mode tokenFileMode stat_fails) ∧
  ∃ w', readAccessToken (file_only_with_mode tokenFileMode stat_fails) = Exits w'.
Proof.
  split; [by left |]. split; [| split].
  - intros (a & e & w' & Hrun). vm_compute in Hrun. discriminate.
  - intros (a & e & w' & Hrun). vm_compute in Hrun. discriminate.
  - eexists. by vm_compute.
Qed.

(** C8, amended.  A filesystem error distinct from absence during the
    fallback-file read (a stat failure that is not NotExist, or a read
    failure on an existing file) is not returned to the caller: the error
    is logged by [log.Fatal], which ends the process, in the file read
    itself and so in ReadToken, in file-only mode as after a NotFound of
    the store.  The read never logs such an error and continues. *)
Theorem io_failure_ends_the_process (w : World) (home : string) :
  home_dir w = Some home →
  file_read_fails w home →
  (∃ w' e, readAccessTokenPath w = Exits w' ∧
           last (trace w') = Some (LogFatal (ErrFault e))) ∧
  (file_only w → ∃ w', readAccessToken w = Exits w') ∧
  (store_reports_NotFound w → ∃ w', readAccessToken w = Exits w').
Proof.
  intros Hhome Hfails.
  assert (Hpath : ∀ w0 : World,
            home_dir w0 = Some home → file_read_fails w0 home →
            ∃ w' e, readAccessTokenPath w0 = Exits w' ∧
                    last (trace w') = Some (LogFatal (ErrFault e))).
  { intros w0 Hhome0 [Hstat | (mode & secret & Hstat & Hfile & Hread)].
    - rewrite (readAccessTokenPath_stat_fault w0 home Hhome0 Hstat).
      do 2 eexists; split; [reflexivity |]. cbn. by rewrite last_snoc.
    - destruct (readAccessTokenPath_read_fault w0 home Hhome0 mode secret
                  Hstat Hfile Hread) as (w' & Hrun & Hlast).
      by exists w', (IoReadFile (tokenPathOf home)). }
  split; [by apply Hpath |]. split.
  - intros Hmode. rewrite (readAccessToken_file_only w Hmode).
    destruct (Hpath (record (Call KeyringOpen) w) Hhome Hfails)
      as (w' & e & Hrun & _).
    exists w'. by rewrite bind_unfold, Hrun.
  - intros Hstore. rewrite (readAccessToken_not_found w Hstore).
    destruct (Hpath (record (Call (KeyringGet keyringKey))
                            (record (Call KeyringOpen) w)) Hhome Hfails)
      as (w' & e & Hrun & _).
    exists w'. by rewrite bind_unfold, Hrun.
Qed.

Lemma io_failure_ends_the_process_witness :
  (∃ w' e, readAccessTokenPath (file_only_with_mode tokenFileMode read_fails)
             = Exits w' ∧
           last (trace w') = Some (LogFatal (ErrFault e))) ∧
  (file_only (file_only_with_mode tokenFileMode read_fails) →
   ∃ w', readAccessToken (file_only_with_mode tokenFileMode read_fails) = Exits w') ∧
  (store_reports_NotFound (file_only_with_mode tokenFileMode read_fails) →
   ∃ w', readAccessToken (file_only_with_mode tokenFileMode read_fails) = Exits w').
Proof.
  apply (io_failure_ends_the_process
           (file_only_with_mode tokenFileMode read_fails) "/home/dev");
    [reflexivity |].
  right. exists tokenFileMode, "tok-A". on_host.
Defined.


(** ** The delete path *)

(** What [DeleteAccessToken] still has to do in either mode. *)
Lemma DeleteAccessToken_store (w : World) :
  open_err w = None →
  DeleteAccessToken w =
    ring_Remove (Backend keyringService) keyringKey (record (Call KeyringOpen) w).
Proof.
  intros Hopen. unfold DeleteAccessToken. by mstep (openKeyring_ok w Hopen).
Qed.

Lemma DeleteAccessToken_file_only (w : World) :
  file_only w →
  DeleteAccessToken w = deleteAccessTokenPath (record (Call KeyringOpen) w).
Proof.
  unfold file_only. intros Hmode. unfold DeleteAccessToken.
  destruct (open_err w) as [e|] eqn:Hopen; [| done].
  mstep (openKeyring_err w e Hopen). by rewrite Hmode.
Qed.

(** [Keyring.Remove] on an opened backend, case by case. *)
Lemma ring_Remove_cases (w : World) (service key : string) :
  ring_Remove (Backend service) key w =
    if fault w (KeyringRemove key)
    then Returns (Some (ErrFault (KeyringRemove key)))
                 (record (Call (KeyringRemove key)) w)
    else match ring_items w !! key with
         | Some _ =>
             Returns None (with_items (delete key (ring_items w))
                                      (record (Call (KeyringRemove key)) w))
         | None =>
             Returns (Some ErrKeyNotFound) (record (Call (KeyringRemove key)) w)
         end.
Proof.
  unfold ring_Remove. mstep enter_eq.
  by destruct (fault w (KeyringRemove key)).
Qed.

(** The second half of the file branch: the default config file is gone
    afterwards, whether it was there or not. *)
Lemma deleteDefaultConfigFile_done (w : World) (home : string) :
  home_dir w = Some home →
  fault w (OsRemove (configPathOf home)) = false →
  ∃ w', deleteDefaultConfigFile w = Returns None w' ∧
        nodes w' = delete (configPathOf home) (nodes w) ∧
        ring_items w' = ring_items w ∧
        same_host w w'.
Proof.
  intros Hhome Hrm. unfold deleteDefaultConfigFile.
  mstep (DefaultConfigPath_home w home Hhome).
  destruct (nodes w !! configPathOf home) as [n|] eqn:Hnode.
  - mstep (os_Remove_node w (configPathOf home) n Hrm Hnode).
    eexists; split; [reflexivity |]. by cbn.
  - mstep (os_Remove_missing w (configPathOf home) Hrm Hnode).
    cbn [os_IsNotExist negb].
    eexists; split; [reflexivity |]. cbn.
    split; [by rewrite delete_id | done].
Qed.

(** The file branch: both files are gone afterwards, the store is not
    touched. *)
Lemma deleteAccessTokenPath_done (w : World) (home : string) :
  home_dir w = Some home →
  fault w (OsRemove (tokenPathOf home)) = false →
  fault w (OsRemove (configPathOf home)) = false →
  ∃ w', deleteAccessTokenPath w = Returns None w' ∧
        nodes w' !! tokenPathOf home = None ∧
        nodes w' !! configPathOf home = None ∧
        ring_items w' = ring_items w ∧
        same_host w w'.
Proof.
  intros Hhome Htok Hcfg. unfold deleteAccessTokenPath.
  mstep (accessTokenPath_home w home Hhome).
  destruct (nodes w !! tokenPathOf home) as [n|] eqn:Hnode.
  - mstep (os_Remove_node w (tokenPathOf home) n Htok Hnode).
    edestruct (deleteDefaultConfigFile_done
                 (with_nodes (delete (tokenPathOf home) (nodes w))
                             (record (Call (OsRemove (tokenPathOf home))) w))
                 home Hhome Hcfg) as (w' & -> & Hnodes & Hitems & Hsame).
    exists w'. split; [done |]. rewrite Hnodes. cbn.
    split; [apply lookup_delete_None; right; apply lookup_delete_eq |].
    split; [apply lookup_delete_eq | done].
  - mstep (os_Remove_missing w (tokenPathOf home) Htok Hnode).
    cbn [os_IsNotExist negb].
    edestruct (deleteDefaultConfigFile_done
                 (record (Call (OsRemove (tokenPathOf home))) w)
                 home Hhome Hcfg) as (w' & -> & Hnodes & Hitems & Hsame).
    exists w'. split; [done |]. rewrite Hnodes. cbn.
    split; [apply lookup_delete_None; by right |].
    split; [apply lookup_delete_eq | done].
Qed.

(** C5.  With the secure store available, a DeleteToken that succeeded is
    followed by a DeleteToken that fails: [Remove] reports NotFound for
    the key that is gone, and [DeleteAccessToken] returns that error. *)
Theorem second_delete_reports_NotFound (w w1 : World) :
  open_err w = None →
  DeleteAccessToken w = Returns None w1 →
  ∃ w2, DeleteAccessToken w1 = Returns (Some ErrKeyNotFound) w2.
Proof.
  intros Hopen Hfirst.
  rewrite (DeleteAccessToken_store w Hopen), ring_Remove_cases in Hfirst.
  cbn in Hfirst.
  destruct (fault w (KeyringRemove keyringKey)) eqn:Hfault; [done |].
  destruct (ring_items w !! keyringKey) as [secret|]; [| done].
  injection Hfirst as <-.
  rewrite DeleteAccessToken_store by done.
  rewrite ring_Remove_cases. cbn. rewrite Hfault, lookup_delete_eq.
  by eexists.
Qed.

Lemma second_delete_reports_NotFound_witness :
  ∃ w2, DeleteAccessToken (world_of (DeleteAccessToken both_populated))
        = Returns (Some ErrKeyNotFound) w2.
Proof.
  apply (second_delete_reports_NotFound both_populated);
    [reflexivity | by vm_compute].
Defined.

(** The same on a store that never held the key: the first DeleteToken
    already returns the NotFound of [Remove]. *)
Lemma delete_on_empty_store (w : World) :
  open_err w = None →
  fault w (KeyringRemove keyringKey) = false →
  ring_items w !! keyringKey = None →
  ∃ w', DeleteAccessToken w = Returns (Some ErrKeyNotFound) w'.
Proof.
  intros Hopen Hfault Hnone.
  rewrite (DeleteAccessToken_store w Hopen), ring_Remove_cases. cbn.
  rewrite Hfault, Hnone. by eexists.
Qed.

(** The sibling path is idempotent: in file-only mode a missing file is
    not an error, so a second DeleteToken succeeds like the first. *)
Lemma file_only_delete_twice (w : World) (home : string) :
  file_only w →
  home_dir w = Some home →
  fault w (OsRemove (tokenPathOf home)) = false →
  fault w (OsRemove (configPathOf home)) = false →
  ∃ w1 w2, DeleteAccessToken w = Returns None w1 ∧
           DeleteAccessToken w1 = Returns None w2.
Proof.
  intros Hmode Hhome Htok Hcfg.
  destruct (deleteAccessTokenPath_done (record (Call KeyringOpen) w) home
              Hhome Htok Hcfg) as (w1 & Hrun1 & _ & _ & _ & (Hh & Ho & Hf)).
  cbn in Hh, Ho, Hf.
  assert (Hmode1 : file_only w1) by (unfold file_only; by rewrite Ho).
  destruct (deleteAccessTokenPath_done (record (Call KeyringOpen) w1) home)
    as (w2 & Hrun2 & _); [cbn; congruence ..|].
  exists w1, w2.
  by rewrite (DeleteAccessToken_file_only w Hmode),
             (DeleteAccessToken_file_only w1 Hmode1).
Qed.

(** C6, counterexample.  The store is available and holds the token, the
    fallback file holds a stale copy: DeleteToken succeeds and the file is
    still there. *)
Lemma stale_file_survives_delete :
  open_err both_populated = None ∧
  (∃ w', DeleteAccessToken both_populated = Returns None w' ∧
         nodes w' !! tokenPathOf "/home/dev" = Some (File tokenFileMode "tok-B")) ∧
  ¬ delete_clears_file both_populated "/home/dev".
Proof.
  split; [done |]. split.
  - eexists. split; by vm_compute.
  - intros (w' & Hrun & Hgone). vm_compute in Hrun.
    injection Hrun as <-. vm_compute in Hgone. discriminate.
Qed.

(** C6, amended.  DeleteToken clears one backend, chosen by the
    availability of the secure store: when the store opens, it calls
    [Remove] on the key and nothing else, and the fallback file, stale copy
    or not, is left as it is; the fallback file and the default config file
    are deleted when opening fails with BackendUnavailable, and then the
    store is not touched. *)
Theorem delete_clears_one_backend (w : World) :
  (open_err w = None →
   ∃ r w', DeleteAccessToken w = Returns r w' ∧
           nodes w' = nodes w ∧
           trace w' = (trace w ++ [Call KeyringOpen;
                                   Call (KeyringRemove keyringKey)])%list) ∧
  (∀ home,
     file_only w →
     home_dir w = Some home →
     fault w (OsRemove (tokenPathOf home)) = false →
     fault w (OsRemove (configPathOf home)) = false →
     ∃ w', DeleteAccessToken w = Returns None w' ∧
           nodes w' !! tokenPathOf home = None ∧
           nodes w' !! configPathOf home = None ∧
           ring_items w' = ring_items w).
Proof.
  split.
  - intros Hopen.
    rewrite (DeleteAccessToken_store w Hopen), ring_Remove_cases. cbn.
    destruct (fault w (KeyringRemove keyringKey));
      [| destruct (ring_items w !! keyringKey)];
      do 2 eexists; (split; [reflexivity |]); cbn;
      by rewrite <- app_assoc.
  - intros home Hmode Hhome Htok Hcfg.
    rewrite (DeleteAccessToken_file_only w Hmode).
    destruct (deleteAccessTokenPath_done (record (Call KeyringOpen) w) home
                Hhome Htok Hcfg) as (w' & Hrun & Hgone & Hgone' & Hitems & _).
    by exists w'.
Qed.

Lemma delete_clears_one_backend_witness :
  ∃ r w', DeleteAccessToken both_populated = Returns r w' ∧
          nodes w' = nodes both_populated ∧
          trace w' = (trace both_populated
                      ++ [Call KeyringOpen;
                          Call (KeyringRemove keyringKey)])%list.
Proof.
  apply (proj1 (delete_clears_one_backend both_populated)). reflexivity.
Defined.


(** ** The write path *)

Lemma append_nonempty_ne (a b : string) : b ≠ "" → a +:+ b ≠ a.
Proof.
  intros Hb. induction a as [|c a IH]; [done |].
  change (String c (a +:+ b) ≠ String c a).
  intros Heq. injection Heq as Heq. by apply IH.
Qed.

Lemma configDirOf_nonempty (home : string) : configDirOf home ≠ "".
Proof. unfold configDirOf. by destruct home. Qed.

Lemma append_append (a b c : string) : (a +:+ b) +:+ c = a +:+ (b +:+ c).
Proof.
  induction a as [|x a IH]; [done |].
  change (String x ((a +:+ b) +:+ c) = String x (a +:+ (b +:+ c))).
  by rewrite IH.
Qed.

Lemma tokenPathOf_eq (home : string) :
  tokenPathOf home = home +:+ "/.config/planetscale/access-token".
Proof.
  unfold tokenPathOf, path_Join.
  rewrite bool_decide_eq_false_2 by apply configDirOf_nonempty.
  unfold configDirOf. by rewrite append_append.
Qed.

Lemma tokenPathOf_not_configDirOf (home : string) :
  tokenPathOf home ≠ configDirOf home.
Proof.
  unfold tokenPathOf, path_Join.
  rewrite bool_decide_eq_false_2 by apply configDirOf_nonempty.
  by apply append_nonempty_ne.
Qed.

Lemma os_Stat_cases (w : World) (name : string) :
  os_Stat name w =
    Returns (if fault w (OsStat name)
             then (None, Some (ErrFault (OsStat name)))
             else match nodes w !! name with
                  | Some (File mode _) => (Some {| Mode := mode |}, None)
                  | Some (Dir perm) => (Some {| Mode := Z.lor ModeDir perm |}, None)
                  | None => (None, Some (ErrNotExist (OsStat name)))
                  end)
            (record (Call (OsStat name)) w).
Proof.
  unfold os_Stat. mstep enter_eq.
  destruct (fault w (OsStat name)); [done |]. cbn.
  by destruct (nodes w !! name) as [[]|].
Qed.

Lemma os_MkdirAll_cases (w : World) (name : string) (perm : Z) :
  os_MkdirAll name perm w =
    if fault w (OsMkdirAll name perm)
    then Returns (Some (ErrFault (OsMkdirAll name perm)))
                 (record (Call (OsMkdirAll name perm)) w)
    else match nodes w !! name with
         | Some (Dir _) => Returns None (record (Call (OsMkdirAll name perm)) w)
         | Some (File _ _) =>
             Returns (Some (ErrFault (OsMkdirAll name perm)))
                     (record (Call (OsMkdirAll name perm)) w)
         | None =>
             Returns None (with_nodes (<[name := Dir perm]> (nodes w))
                                      (record (Call (OsMkdirAll name perm)) w))
         end.
Proof.
  unfold os_MkdirAll. mstep enter_eq.
  by destruct (fault w (OsMkdirAll name perm)).
Qed.

Lemma ioutil_WriteFile_cases (w : World) (name data : string) (perm : Z) :
  ioutil_WriteFile name data perm w =
    if fault w (IoWriteFile name data perm)
    then Returns (Some (ErrFault (IoWriteFile name data perm)))
                 (record (Call (IoWriteFile name data perm)) w)
    else match nodes w !! name with
         | Some (File mode _) =>
             Returns None (with_nodes (<[name := File mode data]> (nodes w))
                             (record (Call (IoWriteFile name data perm)) w))
         | Some (Dir _) =>
             Returns (Some (ErrFault (IoWriteFile name data perm)))
                     (record (Call (IoWriteFile name data perm)) w)
         | None =>
             match parent_of_new_entry w name with
             | Here =>
                 Returns None
                   (with_nodes (<[name := File perm data]> (nodes w))
                      (record (Call (IoWriteFile name data perm)) w))
             | Missing =>
                 Returns (Some (ErrNotExist (IoWriteFile name data perm)))
                         (record (Call (IoWriteFile name data perm)) w)
             | NotADirectory =>
                 Returns (Some (ErrFault (IoWriteFile name data perm)))
                         (record (Call (IoWriteFile name data perm)) w)
             end
         end.
Proof.
  unfold ioutil_WriteFile. mstep enter_eq.
  by destruct (fault w (IoWriteFile name data perm)).
Qed.

(** The directory of a path that [path.Join] made. *)
Lemma path_parent_join (dir name : string) :
  dir ≠ "" →
  path_parent name = None →
  path_parent (path_Join dir name) = Some dir.
Proof.
  intros Hdir Hname. unfold path_Join.
  rewrite bool_decide_eq_false_2 by done. clear Hdir.
  induction dir as [|c dir IH].
  - change (path_parent (String "/" name) = Some "").
    cbn [path_parent]. by rewrite Hname.
  - change (path_parent (String c (dir +:+ "/" +:+ name))
            = Some (String c dir)).
    cbn [path_parent]. by rewrite IH.
Qed.

(** A new entry right under a directory made by [path.Join] goes where
    that directory is. *)
Lemma parent_of_new_entry_join (w : World) (dir name : string) :
  dir ≠ "" →
  path_parent name = None →
  parent_of_new_entry w (path_Join dir name) =
    match nodes w !! dir with
    | Some (Dir _) => Here
    | Some (File _ _) => NotADirectory
    | None => Missing
    end.
Proof.
  intros Hdir Hname. unfold parent_of_new_entry.
  rewrite (path_parent_join dir name Hdir Hname).
  by destruct dir.
Qed.

Lemma parent_of_token_file (w : World) (home : string) :
  parent_of_new_entry w (tokenPathOf home) =
    match nodes w !! configDirOf home with
    | Some (Dir _) => Here
    | Some (File _ _) => NotADirectory
    | None => Missing
    end.
Proof.
  apply parent_of_new_entry_join; [apply configDirOf_nonempty | done].
Qed.

Lemma parent_of_config_file (w : World) (home : string) :
  parent_of_new_entry w (configPathOf home) =
    match nodes w !! configDirOf home with
    | Some (Dir _) => Here
    | Some (File _ _) => NotADirectory
    | None => Missing
    end.
Proof.
  apply parent_of_new_entry_join; [apply configDirOf_nonempty | done].
Qed.

(** The last step of [writeAccessTokenPath]: when it succeeds the file
    holds the token; a file that was not there has mode 0600. *)
Lemma write_step (w w1 : World) (home secret : string) :
  home_dir w = Some home →
  (accessTokenPath
     ≫= λ '(tokenPath, err),
          match err with
          | Some _ => mret err
          | None =>
              ioutil_WriteFile tokenPath secret tokenFileMode
              ≫= λ err1 : option error,
                   match err1 with
                   | Some e => mret (Some (Wrap e "error writing token"))
                   | None => mret None
                   end
          end) w = Returns None w1 →
  ∃ mode, nodes w1 !! tokenPathOf home = Some (File mode secret) ∧
          (nodes w !! tokenPathOf home = None → mode = tokenFileMode) ∧
          ring_items w1 = ring_items w ∧
          same_host w w1.
Proof.
  intros Hhome Hrun.
  rewrite bind_unfold, (accessTokenPath_home w home Hhome) in Hrun.
  cbn beta iota in Hrun.
  rewrite bind_unfold, ioutil_WriteFile_cases in Hrun.
  destruct (fault w (IoWriteFile (tokenPathOf home) secret tokenFileMode));
    [done |].
  destruct (nodes w !! tokenPathOf home) as [[mode old|perm]|] eqn:Hnode;
    [| done |].
  - injection Hrun as <-; cbn.
    exists mode. split; [apply lookup_insert_eq |]. by repeat split.
  - destruct (parent_of_new_entry w (tokenPathOf home)); [| done | done].
    injection Hrun as <-; cbn.
    exists tokenFileMode. split; [apply lookup_insert_eq |]. by repeat split.
Qed.

Lemma writeAccessTokenPath_inv (w w1 : World) (secret : string) :
  writeAccessTokenPath secret w = Returns None w1 →
  ∃ home mode,
    home_dir w = Some home ∧
    nodes w1 !! tokenPathOf home = Some (File mode secret) ∧
    (nodes w !! tokenPathOf home = None → mode = tokenFileMode) ∧
    ring_items w1 = ring_items w ∧
    same_host w w1.
Proof.
  intros Hrun. unfold writeAccessTokenPath in Hrun.
  destruct (home_dir w) as [home|] eqn:Hhome;
    [| by rewrite bind_unfold, ConfigDir_no_home in Hrun].
  exists home.
  rewrite bind_unfold, (ConfigDir_home w home Hhome) in Hrun.
  cbn beta iota in Hrun.
  rewrite bind_unfold, os_Stat_cases in Hrun.
  set (w0 := record (Call (OsStat (configDirOf home))) w) in Hrun.
  destruct (fault w (OsStat (configDirOf home))); [done |].
  destruct (nodes w !! configDirOf home) as [[mode old|perm]|] eqn:Hdir;
    cbn beta iota in Hrun; cbn [os_IsNotExist] in Hrun.
  - destruct (write_step w0 w1 home secret Hhome Hrun) as (m & ?).
    by exists m.
  - destruct (write_step w0 w1 home secret Hhome Hrun) as (m & ?).
    by exists m.
  - rewrite bind_unfold, bind_unfold, os_MkdirAll_cases in Hrun.
    destruct (fault w0 (OsMkdirAll (configDirOf home) configDirMode));
      [done |].
    change (nodes w0) with (nodes w) in Hrun. rewrite Hdir in Hrun.
    set (w2 := with_nodes _ _) in Hrun.
    destruct (write_step w2 w1 home secret Hhome Hrun)
      as (m & Hfile & Hnew & Hitems & Hsame).
    exists m. split; [done |]. split; [done |]. split; [| done].
    intros Hnone. apply Hnew. cbn.
    rewrite lookup_insert_ne; [done |].
    intros Heq. by apply (tokenPathOf_not_configDirOf home).
Qed.

Lemma WriteAccessToken_file_only (w : World) (secret : string) :
  file_only w →
  WriteAccessToken secret w =
    writeAccessTokenPath secret (record (Call KeyringOpen) w).
Proof.
  unfold file_only. intros Hmode. unfold WriteAccessToken.
  destruct (open_err w) as [e|] eqn:Hopen; [| done].
  mstep (openKeyring_err w e Hopen). by rewrite Hmode.
Qed.

Lemma WriteAccessToken_store (w : World) (secret : string) :
  open_err w = None →
  WriteAccessToken secret w =
    ring_Set (Backend keyringService) {| Key := keyringKey; Data := secret |}
             (record (Call KeyringOpen) w).
Proof.
  intros Hopen. unfold WriteAccessToken. by mstep (openKeyring_ok w Hopen).
Qed.

(** The file branch of the write on an empty config directory: directory
    and file are created, the file with mode 0600 and the token in it. *)
Lemma writeAccessTokenPath_fresh (w : World) (home secret : string) :
  home_dir w = Some home →
  nodes w !! configDirOf home = None →
  nodes w !! tokenPathOf home = None →
  (∀ c, fault w c = false) →
  ∃ w1, writeAccessTokenPath secret w = Returns None w1 ∧
        nodes w1 !! configDirOf home = Some (Dir configDirMode) ∧
        nodes w1 !! tokenPathOf home = Some (File tokenFileMode secret).
Proof.
  intros Hhome Hdir Hfile Hfault. unfold writeAccessTokenPath.
  mstep (ConfigDir_home w home Hhome).
  mstep (os_Stat_missing w (configDirOf home) (Hfault _) Hdir).
  cbn [os_IsNotExist].
  rewrite bind_unfold, bind_unfold, os_MkdirAll_cases. cbn.
  rewrite Hfault, Hdir.
  unfold mret at 1, M_ret at 1. cbn beta iota.
  rewrite bind_unfold, (accessTokenPath_home _ home) by done.
  cbn beta iota. rewrite bind_unfold, ioutil_WriteFile_cases. cbn.
  rewrite Hfault, lookup_insert_ne, Hfile
    by (intros Heq; by apply (tokenPathOf_not_configDirOf home)).
  rewrite parent_of_token_file. cbn [nodes with_nodes].
  rewrite lookup_insert_eq.
  eexists; split; [reflexivity |]. cbn.
  split; [| apply lookup_insert_eq].
  rewrite lookup_insert_ne by apply tokenPathOf_not_configDirOf.
  apply lookup_insert_eq.
Qed.


(** The last step of [writeAccessTokenPath], forwards: with the config
    directory in place and no directory at the token path, the write
    succeeds. *)
Lemma write_step_runs (w : World) (home secret : string) (perm : Z) :
  home_dir w = Some home →
  nodes w !! configDirOf home = Some (Dir perm) →
  (∀ p, nodes w !! tokenPathOf home ≠ Some (Dir p)) →
  fault w (IoWriteFile (tokenPathOf home) secret tokenFileMode) = false →
  ∃ w1 mode,
    (accessTokenPath
       ≫= λ '(tokenPath, err),
            match err with
            | Some _ => mret err
            | None =>
                ioutil_WriteFile tokenPath secret tokenFileMode
                ≫= λ err1 : option error,
                     match err1 with
                     | Some e => mret (Some (Wrap e "error writing token"))
                     | None => mret None
                     end
            end) w = Returns None w1 ∧
    nodes w1 !! tokenPathOf home = Some (File mode secret) ∧
    (nodes w !! tokenPathOf home = None → mode = tokenFileMode) ∧
    ring_items w1 = ring_items w ∧
    same_host w w1.
Proof.
  intros Hhome Hdir Hnodir Hwrite.
  rewrite bind_unfold, (accessTokenPath_home w home Hhome).
  cbn beta iota.
  rewrite bind_unfold, ioutil_WriteFile_cases, Hwrite.
  destruct (nodes w !! tokenPathOf home) as [[mode old|p]|] eqn:Hnode.
  - do 2 eexists; split; [reflexivity |]. cbn.
    split; [apply lookup_insert_eq |]. by repeat split.
  - by destruct (Hnodir p).
  - rewrite parent_of_token_file, Hdir.
    do 2 eexists; split; [reflexivity |]. cbn.
    split; [apply lookup_insert_eq |]. by repeat split.
Qed.

(** The file branch of the write, forwards: it succeeds when no file
    sits where the config directory should be, no directory where the
    token file should be, and its calls work. *)
Lemma writeAccessTokenPath_runs (w : World) (home secret : string) :
  home_dir w = Some home →
  (∀ mode data, nodes w !! configDirOf home ≠ Some (File mode data)) →
  (∀ perm, nodes w !! tokenPathOf home ≠ Some (Dir perm)) →
  fault w (OsStat (configDirOf home)) = false →
  fault w (OsMkdirAll (configDirOf home) configDirMode) = false →
  fault w (IoWriteFile (tokenPathOf home) secret tokenFileMode) = false →
  ∃ w1 mode,
    writeAccessTokenPath secret w = Returns None w1 ∧
    nodes w1 !! tokenPathOf home = Some (File mode secret) ∧
    (nodes w !! tokenPathOf home = None → mode = tokenFileMode) ∧
    ring_items w1 = ring_items w ∧
    same_host w w1.
Proof.
  intros Hhome Hnofile Hnodir Hstat Hmkdir Hwrite.
  unfold writeAccessTokenPath.
  rewrite bind_unfold, (ConfigDir_home w home Hhome). cbn beta iota.
  rewrite bind_unfold, os_Stat_cases, Hstat.
  set (w0 := record (Call (OsStat (configDirOf home))) w).
  destruct (nodes w !! configDirOf home) as [[mode old|perm]|] eqn:Hdir;
    cbn beta iota; cbn [os_IsNotExist].
  - by destruct (Hnofile mode old).
  - rewrite bind_unfold. unfold mret at 1, M_ret at 1. cbn beta iota.
    destruct (write_step_runs w0 home secret perm Hhome Hdir Hnodir Hwrite)
      as (w1 & mode & Hrun & Hrest).
    by exists w1, mode.
  - rewrite bind_unfold, bind_unfold, os_MkdirAll_cases.
    change (fault w0) with (fault w). change (nodes w0) with (nodes w).
    rewrite Hmkdir, Hdir.
    unfold mret at 1, M_ret at 1. cbn beta iota.
    set (w2 := with_nodes _ _).
    assert (Hother : nodes w2 !! tokenPathOf home = nodes w !! tokenPathOf home).
    { apply lookup_insert_ne. intros Heq.
      by apply (tokenPathOf_not_configDirOf home). }
    destruct (write_step_runs w2 home secret configDirMode)
      as (w1 & mode & Hrun & Hfile & Hnew & Hitems & Hsame);
      [done | apply lookup_insert_eq | by rewrite Hother | done |].
    exists w1, mode. split; [done |]. split; [done |].
    split; [by rewrite <- Hother | done].
Qed.

(** C9.  For every secret and both backend configurations, WriteToken
    followed by ReadToken returns exactly the secret written.  With the
    keyring available, WriteToken stores the secret under the key and
    succeeds when [Set] works.  In the BackendUnavailable case it succeeds
    when its calls work (no file where the config directory should be, no
    directory where the token file should be) and leaves the file
    <ConfigDir>/access-token holding the secret; a file it had to create
    has mode 0600.  In either case, a WriteToken that returned nil is
    followed by a ReadToken that returns the secret. *)
Theorem write_then_read (w : World) (secret : string) :
  (open_err w = None →
   fault w (KeyringSet keyringKey secret) = false →
   fault w (KeyringGet keyringKey) = false →
   ∃ w1 w2,
     WriteAccessToken secret w = Returns None w1 ∧
     ring_items w1 !! keyringKey = Some secret ∧
     readAccessToken w1 = Returns (secret, None) w2) ∧
  (file_only w →
   ∀ home,
     home_dir w = Some home →
     (∀ mode data, nodes w !! configDirOf home ≠ Some (File mode data)) →
     (∀ perm, nodes w !! tokenPathOf home ≠ Some (Dir perm)) →
     fault w (OsStat (configDirOf home)) = false →
     fault w (OsMkdirAll (configDirOf home) configDirMode) = false →
     fault w (IoWriteFile (tokenPathOf home) secret tokenFileMode) = false →
     fault w (OsStat (tokenPathOf home)) = false →
     fault w (IoReadFile (tokenPathOf home)) = false →
     ∃ w1 w2 dir mode,
       WriteAccessToken secret w = Returns None w1 ∧
       ConfigDir w = Returns (dir, None) w ∧
       nodes w1 !! path_Join dir "access-token" = Some (File mode secret) ∧
       (nodes w !! path_Join dir "access-token" = None →
        mode = tokenFileMode) ∧
       readAccessToken w1 = Returns (secret, None) w2) ∧
  (∀ w1,
     open_err w = None ∨ file_only w →
     WriteAccessToken secret w = Returns None w1 →
     reads_cleanly w →
     read_succeeds w1 secret ∧
     (file_only w →
      ∃ dir mode,
        ConfigDir w = Returns (dir, None) w ∧
        nodes w1 !! path_Join dir "access-token" = Some (File mode secret) ∧
        (nodes w !! path_Join dir "access-token" = None →
         mode = tokenFileMode))).
Proof.
  assert (Hback : ∀ (w1 : World) (home : string) (mode : Z),
            file_only w1 → home_dir w1 = Some home →
            nodes w1 !! tokenPathOf home = Some (File mode secret) →
            fault w1 (OsStat (tokenPathOf home)) = false →
            fault w1 (IoReadFile (tokenPathOf home)) = false →
            ∃ w2, readAccessToken w1 = Returns (secret, None) w2).
  { intros w1 home mode Hmode1 Hhome1 Hfile1 Hstat1 Hread1.
    rewrite (readAccessToken_file_only w1 Hmode1).
    destruct (readAccessTokenPath_holds (record (Call KeyringOpen) w1) home
                Hhome1 mode secret Hstat1 Hfile1 Hread1) as (w2 & Hrun & _).
    exists w2. by rewrite bind_unfold, Hrun. }
  split; [| split].
  - intros Hopen Hset Hget.
    rewrite (WriteAccessToken_store w secret Hopen).
    rewrite ring_Set_ok by done.
    set (w1 := with_items _ _).
    assert (Hitem : ring_items w1 !! keyringKey = Some secret)
      by apply lookup_insert_eq.
    exists w1. eexists. split; [reflexivity |]. split; [done |].
    by apply readAccessToken_found.
  - intros Hmode home Hhome Hnofile Hnodir Hstat Hmkdir Hwrite Hstat' Hread.
    rewrite (WriteAccessToken_file_only w secret Hmode).
    destruct (writeAccessTokenPath_runs (record (Call KeyringOpen) w) home
                secret Hhome Hnofile Hnodir Hstat Hmkdir Hwrite)
      as (w1 & mode & Hrun & Hfile & Hnew & _ & (Hh & Ho & Hf)).
    cbn in Hh, Ho, Hf, Hnew.
    destruct (Hback w1 home mode) as (w2 & Hrun2);
      [unfold file_only; by rewrite Ho | congruence | done
      | by rewrite Hf | by rewrite Hf |].
    exists w1, w2, (configDirOf home), mode.
    split; [done |]. split; [by apply ConfigDir_home | done].
  - intros w1 [Hopen | Hmode] Hwrite (Hget & Hfs).
    + split; [| unfold file_only; by rewrite Hopen].
      rewrite (WriteAccessToken_store w secret Hopen) in Hwrite.
      destruct (fault w (KeyringSet keyringKey secret)) eqn:Hset.
      * by rewrite ring_Set_fault in Hwrite.
      * rewrite ring_Set_ok in Hwrite by done. injection Hwrite as <-.
        eexists. apply readAccessToken_found; [done | done |].
        cbn. apply lookup_insert_eq.
    + rewrite (WriteAccessToken_file_only w secret Hmode) in Hwrite.
      destruct (writeAccessTokenPath_inv _ w1 secret Hwrite)
        as (home & mode & Hhome & Hfile & Hnew & _ & (Hh & Ho & Hf)).
      cbn in Hhome, Hnew, Hh, Ho, Hf. split.
      * apply (Hback w1 home mode);
          [unfold file_only; by rewrite Ho | congruence | done
          | rewrite Hf; apply Hfs | rewrite Hf; apply Hfs].
      * intros _. exists (configDirOf home), mode.
        split; [by apply ConfigDir_home | done].
Qed.

Lemma write_then_read_witness :
  (∃ w1 w2,
     WriteAccessToken "tok-A" empty_store = Returns None w1 ∧
     ring_items w1 !! keyringKey = Some "tok-A" ∧
     readAccessToken w1 = Returns ("tok-A", None) w2) ∧
  (∃ w1 w2 dir mode,
     WriteAccessToken "tok-A" fresh_file_only = Returns None w1 ∧
     ConfigDir fresh_file_only = Returns (dir, None) fresh_file_only ∧
     nodes w1 !! path_Join dir "access-token" = Some (File mode "tok-A") ∧
     (nodes fresh_file_only !! path_Join dir "access-token" = None →
      mode = tokenFileMode) ∧
     readAccessToken w1 = Returns ("tok-A", None) w2) ∧
  (read_succeeds (world_of (WriteAccessToken "tok-A" both_populated)) "tok-A").
Proof.
  split; [| split].
  - apply (proj1 (write_then_read empty_store "tok-A")); reflexivity.
  - apply (proj1 (proj2 (write_then_read fresh_file_only "tok-A"))
             eq_refl "/home/dev");
      first [ reflexivity | by intros ].
  - apply (proj2 (proj2 (write_then_read both_populated "tok-A")) _);
      [by left | by vm_compute | split; [reflexivity | by intros name]].
Defined.

(** The scenario of the specification, run: no backend and an empty
    config directory; after WriteToken of ["tok-A"] the file is there with
    mode 0600 and content ["tok-A"], and ReadToken returns ["tok-A"]. *)
Example scenario_fresh_file_only :
  ∃ w1 w2,
    WriteAccessToken "tok-A" fresh_file_only = Returns None w1 ∧
    nodes w1 !! "/home/dev/.config/planetscale/access-token"
      = Some (File 384 "tok-A") ∧
    readAccessToken w1 = Returns ("tok-A", None) w2.
Proof. do 2 eexists. repeat split; by vm_compute. Qed.

(** The same round trip through an available store; the file is not
    written. *)
Example scenario_store_round_trip :
  ∃ w1 w2,
    WriteAccessToken "tok-A" (host None ∅ ∅ no_fault) = Returns None w1 ∧
    nodes w1 = ∅ ∧
    readAccessToken w1 = Returns ("tok-A", None) w2.
Proof. do 2 eexists. repeat split; by vm_compute. Qed.

(** ** An open error that is not BackendUnavailable *)

(** C10.  When opening the keyring fails with an error other than
    [ErrNoAvailImpl], the keyring value that comes back is nil, and
    [readAccessToken], [WriteAccessToken] and [DeleteAccessToken] go on to
    call [Get], [Set] and [Remove] on it right after the open: each of them
    panics on the nil keyring and none returns the open error. *)
Theorem open_error_is_ignored (w : World) (e : error) (secret : string) :
  open_err w = Some e →
  errors_Is (Some e) ErrNoAvailImpl = false →
  openKeyring w = Returns (NilKeyring, Some e) (record (Call KeyringOpen) w) ∧
  readAccessToken w = Panics (record (Call KeyringOpen) w) ∧
  WriteAccessToken secret w = Panics (record (Call KeyringOpen) w) ∧
  DeleteAccessToken w = Panics (record (Call KeyringOpen) w).
Proof.
  intros Hopen Hother.
  pose proof (openKeyring_err w e Hopen) as Hring.
  split; [done |].
  unfold readAccessToken, WriteAccessToken, DeleteAccessToken.
  rewrite !bind_unfold, Hring. cbn beta iota. by rewrite Hother.
Qed.

Lemma open_error_is_ignored_witness :
  openKeyring broken_keyring
    = Returns (NilKeyring, Some (ErrFault KeyringOpen))
              (record (Call KeyringOpen) broken_keyring) ∧
  readAccessToken broken_keyring
    = Panics (record (Call KeyringOpen) broken_keyring) ∧
  WriteAccessToken "tok-A" broken_keyring
    = Panics (record (Call KeyringOpen) broken_keyring) ∧
  DeleteAccessToken broken_keyring
    = Panics (record (Call KeyringOpen) broken_keyring).
Proof.
  apply (open_error_is_ignored broken_keyring (ErrFault KeyringOpen) "tok-A");
    reflexivity.
Defined.


(** * Further properties of the package *)

(** ** The read path: which store answers *)

(** X1.  When the secure store holds the key, ReadToken returns its data
    and is done after [Open] and [Get]: the fallback file is neither read
    nor changed, whatever it holds, and the store is as it was. *)
Theorem store_answers_first (w : World) (secret : string) :
  open_err w = None →
  fault w (KeyringGet keyringKey) = false →
  ring_items w !! keyringKey = Some secret →
  ∃ w', readAccessToken w = Returns (secret, None) w' ∧
        nodes w' = nodes w ∧
        ring_items w' = ring_items w ∧
        trace w' = (trace w ++ [Call KeyringOpen;
                                Call (KeyringGet keyringKey)])%list.
Proof.
  intros Hopen Hget Hitem.
  rewrite (readAccessToken_found w secret Hopen Hget Hitem).
  eexists; split; [reflexivity |]. cbn.
  repeat split. by rewrite <- app_assoc.
Qed.

Lemma store_answers_first_witness :
  ∃ w', readAccessToken (two_tokens no_fault) = Returns ("tok-A", None) w' ∧
        nodes w' = nodes (two_tokens no_fault) ∧
        ring_items w' = ring_items (two_tokens no_fault) ∧
        trace w' = (trace (two_tokens no_fault)
                    ++ [Call KeyringOpen; Call (KeyringGet keyringKey)])%list.
Proof.
  apply (store_answers_first (two_tokens no_fault) "tok-A"); reflexivity.
Defined.

(** X2.  When [Get] fails with an error that is not NotFound, ReadToken
    returns that error and no token; it does not fall back to the file,
    which is neither read nor changed. *)
Theorem get_failure_is_returned (w : World) :
  open_err w = None →
  fault w (KeyringGet keyringKey) = true →
  ∃ w', readAccessToken w =
          Returns ("", Some (ErrFault (KeyringGet keyringKey))) w' ∧
        nodes w' = nodes w ∧
        ring_items w' = ring_items w ∧
        trace w' = (trace w ++ [Call KeyringOpen;
                                Call (KeyringGet keyringKey)])%list.
Proof.
  intros Hopen Hget. unfold readAccessToken.
  mstep (openKeyring_ok w Hopen). cbn [errors_Is].
  rewrite bind_unfold. unfold ring_Get. mstep enter_eq.
  change (fault (record (Call KeyringOpen) w)) with (fault w).
  rewrite Hget. cbn.
  eexists; split; [reflexivity |]. cbn.
  repeat split. by rewrite <- app_assoc.
Qed.

Lemma get_failure_is_returned_witness :
  ∃ w', readAccessToken (two_tokens get_fails) =
          Returns ("", Some (ErrFault (KeyringGet keyringKey))) w' ∧
        nodes w' = nodes (two_tokens get_fails) ∧
        ring_items w' = ring_items (two_tokens get_fails) ∧
        trace w' = (trace (two_tokens get_fails)
                    ++ [Call KeyringOpen; Call (KeyringGet keyringKey)])%list.
Proof.
  apply (get_failure_is_returned (two_tokens get_fails)); reflexivity.
Defined.

(** X3.  When the store reports NotFound and the fallback file is absent,
    ReadToken returns "no credential" without an error, and leaves the
    store and the file system as they were. *)
Theorem nothing_stored_is_no_credential (w : World) (home : string) :
  store_reports_NotFound w →
  home_dir w = Some home →
  fault w (OsStat (tokenPathOf home)) = false →
  nodes w !! tokenPathOf home = None →
  ∃ w', readAccessToken w = Returns ("", None) w' ∧
        nodes w' = nodes w ∧
        ring_items w' = ring_items w.
Proof.
  intros Hstore Hhome Hstat Hnone.
  rewrite (readAccessToken_not_found w Hstore).
  rewrite bind_unfold, (readAccessTokenPath_missing _ home) by done.
  by eexists.
Qed.

Lemma nothing_stored_is_no_credential_witness :
  ∃ w', readAccessToken empty_store = Returns ("", None) w' ∧
        nodes w' = nodes empty_store ∧
        ring_items w' = ring_items empty_store.
Proof.
  apply (nothing_stored_is_no_credential empty_store "/home/dev"); on_host.
Defined.

(** X4.  An empty fallback file is not migrated: when the store reports
    NotFound and the file is empty, ReadToken returns "no credential"
    without an error, the store still lacks the key and the file is still
    there. *)
Theorem empty_file_is_not_migrated (w : World) (home : string) :
  store_reports_NotFound w →
  file_holds w home "" →
  ∃ w', readAccessToken w = Returns ("", None) w' ∧
        ring_items w' !! keyringKey = None ∧
        ∃ mode, nodes w' !! tokenPathOf home = Some (File mode "").
Proof.
  intros Hstore (Hhome & [mode Hfile] & Hstat & Hread).
  rewrite (readAccessToken_not_found w Hstore).
  set (w0 := record (Call (KeyringGet keyringKey)) (record (Call KeyringOpen) w)).
  destruct (readAccessTokenPath_holds w0 home Hhome mode "" Hstat Hfile Hread)
    as (w1 & Hrun & Hkept & _ & Hitems & _).
  exists w1. rewrite bind_unfold, Hrun. cbn beta iota.
  rewrite bool_decide_eq_false_2 by (cbn; lia).
  split; [done |]. split; [| done].
  rewrite Hitems. apply Hstore.
Qed.

Lemma empty_file_is_not_migrated_witness :
  ∃ w', readAccessToken empty_token_file = Returns ("", None) w' ∧
        ring_items w' !! keyringKey = None ∧
        ∃ mode, nodes w' !! tokenPathOf "/home/dev" = Some (File mode "").
Proof.
  apply (empty_file_is_not_migrated empty_token_file "/home/dev"); on_host.
Defined.

(** ** An unresolvable home directory *)

Lemma accessTokenPath_no_home (w : World) :
  home_dir w = None →
  accessTokenPath w =
    Returns ("", Some (Errorf "can't expand path %q: %s" ErrHomeDir)) w.
Proof. intros H. unfold accessTokenPath. by mstep (ConfigDir_no_home w H). Qed.

Lemma readAccessTokenPath_no_home (w : World) :
  home_dir w = None →
  readAccessTokenPath w =
    Returns ("", Some (Errorf "can't expand path %q: %s" ErrHomeDir)) w.
Proof.
  intros H. unfold readAccessTokenPath. by mstep (accessTokenPath_no_home w H).
Qed.

(** X5.  After a NotFound of the store, the error of the fallback-file
    read is dropped: when the home directory cannot be resolved, ReadToken
    returns "no credential" and no error. *)
Theorem not_found_drops_the_path_error (w : World) :
  store_reports_NotFound w →
  home_dir w = None →
  ∃ w', readAccessToken w = Returns ("", None) w' ∧
        nodes w' = nodes w ∧
        ring_items w' = ring_items w.
Proof.
  intros Hstore Hhome.
  rewrite (readAccessToken_not_found w Hstore).
  rewrite bind_unfold, readAccessTokenPath_no_home by done.
  by eexists.
Qed.

Lemma not_found_drops_the_path_error_witness :
  ∃ w', readAccessToken (homeless None) = Returns ("", None) w' ∧
        nodes w' = nodes (homeless None) ∧
        ring_items w' = ring_items (homeless None).
Proof.
  apply (not_found_drops_the_path_error (homeless None)); on_host.
Defined.

(** X6.  In file-only mode with a home directory that cannot be resolved,
    ReadToken, WriteToken and DeleteToken all return the "can't expand
    path" error of [ConfigDir] and make no call to the file system. *)
Theorem file_only_needs_a_home (w : World) (secret : string) :
  file_only w →
  home_dir w = None →
  readAccessToken w =
    Returns ("", Some (Errorf "can't expand path %q: %s" ErrHomeDir))
            (record (Call KeyringOpen) w) ∧
  WriteAccessToken secret w =
    Returns (Some (Errorf "can't expand path %q: %s" ErrHomeDir))
            (record (Call KeyringOpen) w) ∧
  DeleteAccessToken w =
    Returns (Some (Errorf "can't expand path %q: %s" ErrHomeDir))
            (record (Call KeyringOpen) w).
Proof.
  intros Hmode Hhome. split; [| split].
  - rewrite (readAccessToken_file_only w Hmode).
    by rewrite bind_unfold, readAccessTokenPath_no_home.
  - rewrite (WriteAccessToken_file_only w secret Hmode).
    unfold writeAccessTokenPath.
    by rewrite bind_unfold, ConfigDir_no_home.
  - rewrite (DeleteAccessToken_file_only w Hmode).
    unfold deleteAccessTokenPath.
    by rewrite bind_unfold, accessTokenPath_no_home.
Qed.

Lemma file_only_needs_a_home_witness :
  readAccessToken (homeless (Some ErrNoAvailImpl)) =
    Returns ("", Some (Errorf "can't expand path %q: %s" ErrHomeDir))
            (record (Call KeyringOpen) (homeless (Some ErrNoAvailImpl))) ∧
  WriteAccessToken "tok-A" (homeless (Some ErrNoAvailImpl)) =
    Returns (Some (Errorf "can't expand path %q: %s" ErrHomeDir))
            (record (Call KeyringOpen) (homeless (Some ErrNoAvailImpl))) ∧
  DeleteAccessToken (homeless (Some ErrNoAvailImpl)) =
    Returns (Some (Errorf "can't expand path %q: %s" ErrHomeDir))
            (record (Call KeyringOpen) (homeless (Some ErrNoAvailImpl))).
Proof.
  apply (file_only_needs_a_home (homeless (Some ErrNoAvailImpl)) "tok-A");
    reflexivity.
Defined.

(** ** More on permission repair *)

(** X7.  When the mode of the fallback file has a bit outside 0600 and
    [os.Chmod] fails, the failure is logged and the read goes on: the
    content is returned without an error and the file keeps its mode. *)
Theorem chmod_failure_is_logged (w : World) (home secret : string) (mode : Z) :
  home_dir w = Some home →
  nodes w !! tokenPathOf home = Some (File mode secret) →
  Z.ldiff mode tokenFileMode ≠ 0 →
  fault w (OsStat (tokenPathOf home)) = false →
  fault w (OsChmod (tokenPathOf home) tokenFileMode) = true →
  fault w (IoReadFile (tokenPathOf home)) = false →
  ∃ w', readAccessTokenPath w = Returns (secret, None) w' ∧
        nodes w' = nodes w ∧
        trace w' =
          (trace w ++
           [Call (OsStat (tokenPathOf home));
            Call (OsChmod (tokenPathOf home) tokenFileMode);
            LogPrintf "Unable to change %v file mode to 0%o: %v"
                      (tokenPathOf home) tokenFileMode
                      (ErrFault (OsChmod (tokenPathOf home) tokenFileMode));
            Call (IoReadFile (tokenPathOf home))])%list.
Proof.
  intros Hhome Hfile Hloose Hstat Hchmod Hread.
  rewrite (readAccessTokenPath_loose_chmod_fault w home Hhome mode secret)
    by done.
  eexists; split; [reflexivity |]. cbn.
  split; [done |]. by rewrite <- !app_assoc.
Qed.

Lemma chmod_failure_is_logged_witness :
  ∃ w', readAccessTokenPath (file_only_with_mode 420 chmod_fails)
          = Returns ("tok-A", None) w' ∧
        nodes w' = nodes (file_only_with_mode 420 chmod_fails) ∧
        trace w' =
          (trace (file_only_with_mode 420 chmod_fails) ++
           [Call (OsStat (tokenPathOf "/home/dev"));
            Call (OsChmod (tokenPathOf "/home/dev") tokenFileMode);
            LogPrintf "Unable to change %v file mode to 0%o: %v"
                      (tokenPathOf "/home/dev") tokenFileMode
                      (ErrFault (OsChmod (tokenPathOf "/home/dev") tokenFileMode));
            Call (IoReadFile (tokenPathOf "/home/dev"))])%list.
Proof.
  apply (chmod_failure_is_logged (file_only_with_mode 420 chmod_fails)
                                 "/home/dev" "tok-A" 420);
    first [ reflexivity | by vm_compute ].
Defined.

(** X8.  The repair is done once: after a fallback-file read on a host
    where [os.Chmod] works, the mode of the file has no bit outside 0600,
    and a second read returns the same content without calling [os.Chmod]
    and without changing the file system. *)
Theorem repair_is_done_once (w : World) (home secret : string) (mode : Z) :
  home_dir w = Some home →
  nodes w !! tokenPathOf home = Some (File mode secret) →
  fault w (OsStat (tokenPathOf home)) = false →
  fault w (OsChmod (tokenPathOf home) tokenFileMode) = false →
  fault w (IoReadFile (tokenPathOf home)) = false →
  ∃ w1 w2 mode',
    readAccessTokenPath w = Returns (secret, None) w1 ∧
    nodes w1 !! tokenPathOf home = Some (File mode' secret) ∧
    Z.ldiff mode' tokenFileMode = 0 ∧
    readAccessTokenPath w1 = Returns (secret, None) w2 ∧
    nodes w2 = nodes w1 ∧
    trace w2 = (trace w1 ++ [Call (OsStat (tokenPathOf home));
                             Call (IoReadFile (tokenPathOf home))])%list.
Proof.
  intros Hhome Hfile Hstat Hchmod Hread.
  assert (Hagain : ∀ (w1 : World) (mode' : Z),
            home_dir w1 = Some home → fault w1 = fault w →
            nodes w1 !! tokenPathOf home = Some (File mode' secret) →
            Z.ldiff mode' tokenFileMode = 0 →
            ∃ w2, readAccessTokenPath w1 = Returns (secret, None) w2 ∧
                  nodes w2 = nodes w1 ∧
                  trace w2 = (trace w1 ++ [Call (OsStat (tokenPathOf home));
                                           Call (IoReadFile (tokenPathOf home))])%list).
  { intros w1 mode' Hhome1 Hfault1 Hfile1 Htight.
    rewrite (readAccessTokenPath_tight w1 home Hhome1 mode' secret)
      by (done || by rewrite Hfault1).
    eexists; split; [reflexivity |]. cbn.
    split; [done |]. by rewrite <- !app_assoc. }
  destruct (decide (Z.ldiff mode tokenFileMode = 0)) as [Htight | Hloose].
  - rewrite (readAccessTokenPath_tight w home Hhome mode secret) by done.
    set (w1 := record _ (record _ w)).
    destruct (Hagain w1 mode) as (w2 & Hrun2 & Hsame & Htrace); try done.
    by exists w1, w2, mode.
  - rewrite (readAccessTokenPath_loose w home Hhome mode secret) by done.
    set (w1 := record _ (with_nodes _ _)).
    destruct (Hagain w1 tokenFileMode) as (w2 & Hrun2 & Hsame & Htrace);
      try done; [apply lookup_insert_eq |].
    exists w1, w2, tokenFileMode.
    split; [done |]. split; [apply lookup_insert_eq | done].
Qed.

Lemma repair_is_done_once_witness :
  ∃ w1 w2 mode',
    readAccessTokenPath (file_only_with_mode 420 no_fault)
      = Returns ("tok-A", None) w1 ∧
    nodes w1 !! tokenPathOf "/home/dev" = Some (File mode' "tok-A") ∧
    Z.ldiff mode' tokenFileMode = 0 ∧
    readAccessTokenPath w1 = Returns ("tok-A", None) w2 ∧
    nodes w2 = nodes w1 ∧
    trace w2 = (trace w1 ++ [Call (OsStat (tokenPathOf "/home/dev"));
                             Call (IoReadFile (tokenPathOf "/home/dev"))])%list.
Proof.
  apply (repair_is_done_once (file_only_with_mode 420 no_fault)
                             "/home/dev" "tok-A" 420);
    first [ reflexivity | by vm_compute ].
Defined.

Lemma ModeDir_is_outside (perm : Z) :
  Z.ldiff (Z.lor ModeDir perm) tokenFileMode ≠ 0.
Proof.
  intros Hzero.
  assert (Hbit : Z.testbit (Z.ldiff (Z.lor ModeDir perm) tokenFileMode) 31
                 = false) by (rewrite Hzero; apply Z.bits_0).
  rewrite Z.ldiff_spec, Z.lor_spec in Hbit.
  by vm_compute in Hbit.
Qed.

Lemma ioutil_ReadFile_cases (w : World) (name : string) :
  ioutil_ReadFile name w =
    Returns (if fault w (IoReadFile name)
             then ("", Some (ErrFault (IoReadFile name)))
             else match nodes w !! name with
                  | Some (File _ data) => (data, None)
                  | Some (Dir _) => ("", Some (ErrFault (IoReadFile name)))
                  | None => ("", Some (ErrNotExist (IoReadFile name)))
                  end)
            (record (Call (IoReadFile name)) w).
Proof.
  unfold ioutil_ReadFile. mstep enter_eq.
  destruct (fault w (IoReadFile name)); [done |]. cbn.
  by destruct (nodes w !! name) as [[]|].
Qed.

(** X9.  A directory where the token file should be ends the process: its
    mode carries the directory bit, which lies outside 0600, so the
    directory is first set to mode 0600, then [ioutil.ReadFile] fails on it
    and the error goes to [log.Fatal]. *)
Theorem directory_in_the_way_is_fatal (w : World) (home : string) (perm : Z) :
  home_dir w = Some home →
  nodes w !! tokenPathOf home = Some (Dir perm) →
  fault w (OsStat (tokenPathOf home)) = false →
  fault w (OsChmod (tokenPathOf home) tokenFileMode) = false →
  ∃ w', readAccessTokenPath w = Exits w' ∧
        nodes w' !! tokenPathOf home = Some (Dir tokenFileMode) ∧
        last (trace w') =
          Some (LogFatal (ErrFault (IoReadFile (tokenPathOf home)))).
Proof.
  intros Hhome Hdir Hstat Hchmod. unfold readAccessTokenPath.
  mstep (accessTokenPath_home w home Hhome).
  mstep (os_Stat_node w (tokenPathOf home) _ Hstat Hdir).
  rewrite bind_unfold. cbn [Mode].
  rewrite bool_decide_eq_true_2 by apply ModeDir_is_outside.
  rewrite bind_unfold. unfold os_Chmod. mstep enter_eq.
  change (fault (record (Call (OsStat (tokenPathOf home))) w)) with (fault w).
  rewrite Hchmod. cbn. rewrite Hdir. cbn.
  rewrite ?bind_unfold, ioutil_ReadFile_cases. cbn. rewrite lookup_insert_eq.
  destruct (fault w (IoReadFile (tokenPathOf home))); cbn;
    (eexists; split; [reflexivity |]); cbn;
    (split; [apply lookup_insert_eq | by rewrite last_snoc]).
Qed.

Lemma directory_in_the_way_is_fatal_witness :
  ∃ w', readAccessTokenPath directory_in_the_way = Exits w' ∧
        nodes w' !! tokenPathOf "/home/dev" = Some (Dir tokenFileMode) ∧
        last (trace w') =
          Some (LogFatal (ErrFault (IoReadFile (tokenPathOf "/home/dev")))).
Proof.
  apply (directory_in_the_way_is_fatal directory_in_the_way "/home/dev" 493);
    first [ reflexivity | by vm_compute ].
Defined.

(** ** More on the write path *)

(** X10.  No dual write: with the secure store available, WriteToken
    returns the result of [Set] as it is and never touches the file
    system; on success the store holds the secret under the key, on failure
    the store is as it was. *)
Theorem store_write_leaves_the_files (w : World) (secret : string) :
  open_err w = None →
  ∃ r w', WriteAccessToken secret w = Returns r w' ∧
          nodes w' = nodes w ∧
          trace w' = (trace w ++ [Call KeyringOpen;
                                  Call (KeyringSet keyringKey secret)])%list ∧
          match r with
          | None => ring_items w' !! keyringKey = Some secret
          | Some e => e = ErrFault (KeyringSet keyringKey secret) ∧
                      ring_items w' = ring_items w
          end.
Proof.
  intros Hopen. rewrite (WriteAccessToken_store w secret Hopen).
  destruct (fault w (KeyringSet keyringKey secret)) eqn:Hset.
  - rewrite ring_Set_fault by done.
    do 2 eexists; split; [reflexivity |]. cbn.
    split; [done |]. split; [by rewrite <- app_assoc | done].
  - rewrite ring_Set_ok by done.
    do 2 eexists; split; [reflexivity |]. cbn.
    split; [done |]. split; [by rewrite <- app_assoc | apply lookup_insert_eq].
Qed.

Lemma store_write_leaves_the_files_witness :
  ∃ r w', WriteAccessToken "tok-C" both_populated = Returns r w' ∧
          nodes w' = nodes both_populated ∧
          trace w' = (trace both_populated
                      ++ [Call KeyringOpen;
                          Call (KeyringSet keyringKey "tok-C")])%list ∧
          match r with
          | None => ring_items w' !! keyringKey = Some "tok-C"
          | Some e => e = ErrFault (KeyringSet keyringKey "tok-C") ∧
                      ring_items w' = ring_items both_populated
          end.
Proof.
  apply (store_write_leaves_the_files both_populated "tok-C"). reflexivity.
Defined.

(** X11.  In file-only mode on a host without the config directory,
    WriteToken succeeds when its three calls work: it creates the directory
    with mode 0771 and the token file with mode 0600 and the secret in it,
    and leaves the keyring as it was. *)
Theorem first_write_creates_directory_and_file
    (w : World) (home secret : string) :
  file_only w →
  home_dir w = Some home →
  nodes w !! configDirOf home = None →
  nodes w !! tokenPathOf home = None →
  fault w (OsStat (configDirOf home)) = false →
  fault w (OsMkdirAll (configDirOf home) configDirMode) = false →
  fault w (IoWriteFile (tokenPathOf home) secret tokenFileMode) = false →
  ∃ w', WriteAccessToken secret w = Returns None w' ∧
        nodes w' !! configDirOf home = Some (Dir configDirMode) ∧
        nodes w' !! tokenPathOf home = Some (File tokenFileMode secret) ∧
        ring_items w' = ring_items w.
Proof.
  intros Hmode Hhome Hdir Hfile Hstat Hmkdir Hwrite.
  rewrite (WriteAccessToken_file_only w secret Hmode).
  unfold writeAccessTokenPath.
  rewrite bind_unfold, (ConfigDir_home _ home) by done. cbn beta iota.
  rewrite bind_unfold, (os_Stat_missing _ (configDirOf home)) by done.
  cbn beta iota. cbn [os_IsNotExist].
  rewrite bind_unfold, bind_unfold, os_MkdirAll_cases. cbn.
  rewrite Hmkdir, Hdir.
  unfold mret at 1, M_ret at 1. cbn beta iota.
  rewrite bind_unfold, (accessTokenPath_home _ home) by done.
  cbn beta iota. rewrite bind_unfold, ioutil_WriteFile_cases. cbn.
  rewrite Hwrite, lookup_insert_ne, Hfile
    by (intros Heq; by apply (tokenPathOf_not_configDirOf home)).
  rewrite parent_of_token_file. cbn [nodes with_nodes].
  rewrite lookup_insert_eq.
  eexists; split; [reflexivity |]. cbn.
  split; [| split; [apply lookup_insert_eq | done]].
  rewrite lookup_insert_ne by apply tokenPathOf_not_configDirOf.
  apply lookup_insert_eq.
Qed.

Lemma first_write_creates_directory_and_file_witness :
  ∃ w', WriteAccessToken "tok-A" fresh_file_only = Returns None w' ∧
        nodes w' !! configDirOf "/home/dev" = Some (Dir configDirMode) ∧
        nodes w' !! tokenPathOf "/home/dev" = Some (File tokenFileMode "tok-A") ∧
        ring_items w' = ring_items fresh_file_only.
Proof.
  apply (first_write_creates_directory_and_file fresh_file_only "/home/dev");
    reflexivity.
Defined.

(** X12.  WriteToken does not tighten an existing token file, the next
    ReadToken does: in file-only mode, writing over a file of mode [mode]
    replaces the content and keeps [mode]; the ReadToken that follows
    returns the new secret and leaves the file with mode 0600 when [mode]
    had a bit outside 0600. *)
Theorem write_keeps_mode_read_repairs
    (w : World) (home secret old : string) (mode perm : Z) :
  file_only w →
  home_dir w = Some home →
  nodes w !! configDirOf home = Some (Dir perm) →
  nodes w !! tokenPathOf home = Some (File mode old) →
  (∀ c, fault w c = false) →
  ∃ w1 w2,
    WriteAccessToken secret w = Returns None w1 ∧
    nodes w1 !! tokenPathOf home = Some (File mode secret) ∧
    readAccessToken w1 = Returns (secret, None) w2 ∧
    nodes w2 !! tokenPathOf home =
      Some (File (if bool_decide (Z.ldiff mode tokenFileMode ≠ 0)
                  then tokenFileMode else mode) secret).
Proof.
  intros Hmode Hhome Hdir Hfile Hfault.
  rewrite (WriteAccessToken_file_only w secret Hmode).
  unfold writeAccessTokenPath.
  rewrite bind_unfold, (ConfigDir_home _ home) by done. cbn beta iota.
  rewrite bind_unfold, (os_Stat_node _ (configDirOf home) (Dir perm))
    by (done || apply Hfault).
  cbn beta iota. cbn [os_IsNotExist].
  rewrite bind_unfold. unfold mret at 1, M_ret at 1. cbn beta iota.
  rewrite bind_unfold, (accessTokenPath_home _ home) by done.
  cbn beta iota. rewrite bind_unfold, ioutil_WriteFile_cases. cbn.
  rewrite Hfault, Hfile.
  set (w1 := with_nodes _ _).
  assert (Hmode1 : file_only w1) by done.
  assert (Hfile1 : nodes w1 !! tokenPathOf home = Some (File mode secret))
    by apply lookup_insert_eq.
  exists w1. rewrite (readAccessToken_file_only w1 Hmode1).
  case_bool_decide as Hloose.
  - eexists. split; [reflexivity |]. split; [done |].
    rewrite bind_unfold,
      (readAccessTokenPath_loose (record (Call KeyringOpen) w1) home Hhome
                                 mode secret) by (done || apply Hfault).
    split; [reflexivity |]. cbn. apply lookup_insert_eq.
  - assert (Htight : Z.ldiff mode tokenFileMode = 0)
      by (destruct (decide (Z.ldiff mode tokenFileMode = 0)); done).
    eexists. split; [reflexivity |]. split; [done |].
    rewrite bind_unfold,
      (readAccessTokenPath_tight (record (Call KeyringOpen) w1) home Hhome
                                 mode secret) by (done || apply Hfault).
    split; [reflexivity |]. done.
Qed.

Lemma write_keeps_mode_read_repairs_witness :
  ∃ w1 w2,
    WriteAccessToken "tok-new" loose_token_file = Returns None w1 ∧
    nodes w1 !! tokenPathOf "/home/dev" = Some (File 420 "tok-new") ∧
    readAccessToken w1 = Returns ("tok-new", None) w2 ∧
    nodes w2 !! tokenPathOf "/home/dev" =
      Some (File (if bool_decide (Z.ldiff 420 tokenFileMode ≠ 0)
                  then tokenFileMode else 420) "tok-new").
Proof.
  apply (write_keeps_mode_read_repairs loose_token_file "/home/dev"
           "tok-new" "tok-old" 420 505);
    first [ reflexivity | by vm_compute | by intros c ].
Defined.

(** X13.  When the config directory is missing and cannot be created,
    WriteToken in file-only mode returns the error of [os.MkdirAll], wrapped
    so that [errors.Is] still finds it, and writes no token file. *)
Theorem mkdir_failure_stops_the_write (w : World) (home secret : string) :
  file_only w →
  home_dir w = Some home →
  nodes w !! configDirOf home = None →
  fault w (OsStat (configDirOf home)) = false →
  fault w (OsMkdirAll (configDirOf home) configDirMode) = true →
  ∃ e w', WriteAccessToken secret w = Returns (Some e) w' ∧
          e = Wrap (ErrFault (OsMkdirAll (configDirOf home) configDirMode))
                   "error creating config directory" ∧
          errors_Is (Some e)
                    (ErrFault (OsMkdirAll (configDirOf home) configDirMode))
            = true ∧
          nodes w' = nodes w.
Proof.
  intros Hmode Hhome Hdir Hstat Hmkdir.
  rewrite (WriteAccessToken_file_only w secret Hmode).
  unfold writeAccessTokenPath.
  rewrite bind_unfold, (ConfigDir_home _ home) by done. cbn beta iota.
  rewrite bind_unfold, (os_Stat_missing _ (configDirOf home)) by done.
  cbn beta iota. cbn [os_IsNotExist].
  rewrite bind_unfold, bind_unfold, os_MkdirAll_cases. cbn.
  rewrite Hmkdir.
  do 2 eexists; split; [reflexivity |].
  split; [done |]. split; [| done].
  cbn. rewrite bool_decide_eq_false_2 by done.
  by rewrite bool_decide_eq_true_2.
Qed.

Lemma mkdir_failure_stops_the_write_witness :
  ∃ e w', WriteAccessToken "tok-A" (host (Some ErrNoAvailImpl) ∅ ∅ mkdir_fails)
            = Returns (Some e) w' ∧
          e = Wrap (ErrFault (OsMkdirAll (configDirOf "/home/dev") configDirMode))
                   "error creating config directory" ∧
          errors_Is (Some e)
                    (ErrFault (OsMkdirAll (configDirOf "/home/dev") configDirMode))
            = true ∧
          nodes w' = nodes (host (Some ErrNoAvailImpl) ∅ ∅ mkdir_fails).
Proof.
  apply (mkdir_failure_stops_the_write
           (host (Some ErrNoAvailImpl) ∅ ∅ mkdir_fails) "/home/dev" "tok-A");
    reflexivity.
Defined.

(** ** More on the delete path *)

Lemma append_cancel_l (a b c : string) : a +:+ b = a +:+ c → b = c.
Proof.
  induction a as [|x a IH]; [done |].
  change (String x (a +:+ b) = String x (a +:+ c) → b = c).
  intros Heq. injection Heq as Heq. by apply IH.
Qed.

Lemma tokenPathOf_not_configPathOf (home : string) :
  tokenPathOf home ≠ configPathOf home.
Proof.
  unfold tokenPathOf, configPathOf, path_Join.
  rewrite bool_decide_eq_false_2 by apply configDirOf_nonempty.
  intros Heq. apply append_cancel_l in Heq. discriminate.
Qed.

Lemma os_Remove_cases (w : World) (name : string) :
  os_Remove name w =
    if fault w (OsRemove name)
    then Returns (Some (ErrFault (OsRemove name)))
                 (record (Call (OsRemove name)) w)
    else match nodes w !! name with
         | Some _ =>
             Returns None (with_nodes (delete name (nodes w))
                                      (record (Call (OsRemove name)) w))
         | None =>
             Returns (Some (ErrNotExist (OsRemove name)))
                     (record (Call (OsRemove name)) w)
         end.
Proof.
  unfold os_Remove. mstep enter_eq.
  by destruct (fault w (OsRemove name)).
Qed.

(** The removal of the default config file fails. *)
Lemma deleteDefaultConfigFile_fault (w : World) (home : string) :
  home_dir w = Some home →
  fault w (OsRemove (configPathOf home)) = true →
  deleteDefaultConfigFile w =
    Returns (Some (Wrap (ErrFault (OsRemove (configPathOf home)))
                        "error removing default config file"))
            (record (Call (OsRemove (configPathOf home))) w).
Proof.
  intros Hhome Hrm. unfold deleteDefaultConfigFile.
  mstep (DefaultConfigPath_home w home Hhome).
  by mstep (os_Remove_fault w (configPathOf home) Hrm).
Qed.

(** The removal of the token file fails. *)
Lemma deleteAccessTokenPath_token_fault (w : World) (home : string) :
  home_dir w = Some home →
  fault w (OsRemove (tokenPathOf home)) = true →
  deleteAccessTokenPath w =
    Returns (Some (Wrap (ErrFault (OsRemove (tokenPathOf home)))
                        "error removing access token file"))
            (record (Call (OsRemove (tokenPathOf home))) w).
Proof.
  intros Hhome Hrm. unfold deleteAccessTokenPath.
  mstep (accessTokenPath_home w home Hhome).
  by mstep (os_Remove_fault w (tokenPathOf home) Hrm).
Qed.

(** The token file goes, the removal of the config file fails. *)
Lemma deleteAccessTokenPath_config_fault (w : World) (home : string) :
  home_dir w = Some home →
  fault w (OsRemove (tokenPathOf home)) = false →
  fault w (OsRemove (configPathOf home)) = true →
  ∃ w', deleteAccessTokenPath w =
          Returns (Some (Wrap (ErrFault (OsRemove (configPathOf home)))
                              "error removing default config file")) w' ∧
        nodes w' = delete (tokenPathOf home) (nodes w) ∧
        ring_items w' = ring_items w.
Proof.
  intros Hhome Htok Hcfg. unfold deleteAccessTokenPath.
  mstep (accessTokenPath_home w home Hhome).
  rewrite bind_unfold, os_Remove_cases, Htok.
  destruct (nodes w !! tokenPathOf home) as [n|] eqn:Hnode;
    cbn beta iota; cbn [os_IsNotExist negb].
  - rewrite (deleteDefaultConfigFile_fault _ home) by done.
    by eexists.
  - rewrite (deleteDefaultConfigFile_fault _ home) by done.
    eexists; split; [reflexivity |]. cbn. by rewrite delete_id.
Qed.

(** A file branch that succeeded, read backwards. *)
Lemma deleteAccessTokenPath_inv (w w1 : World) :
  deleteAccessTokenPath w = Returns None w1 →
  ∃ home, home_dir w = Some home ∧
          fault w (OsRemove (tokenPathOf home)) = false ∧
          fault w (OsRemove (configPathOf home)) = false ∧
          nodes w1 !! tokenPathOf home = None ∧
          nodes w1 !! configPathOf home = None ∧
          ring_items w1 = ring_items w ∧
          same_host w w1.
Proof.
  intros Hrun.
  destruct (home_dir w) as [home|] eqn:Hhome.
  - exists home.
    destruct (fault w (OsRemove (tokenPathOf home))) eqn:Htok;
      [by rewrite (deleteAccessTokenPath_token_fault w home) in Hrun |].
    destruct (fault w (OsRemove (configPathOf home))) eqn:Hcfg.
    + destruct (deleteAccessTokenPath_config_fault w home Hhome Htok Hcfg)
        as (w' & Hrun' & _). by rewrite Hrun' in Hrun.
    + destruct (deleteAccessTokenPath_done w home Hhome Htok Hcfg)
        as (w' & Hrun' & Hrest).
      rewrite Hrun' in Hrun. injection Hrun as <-.
      by destruct Hrest as (? & ? & ? & ?).
  - unfold deleteAccessTokenPath in Hrun.
    by rewrite bind_unfold, accessTokenPath_no_home in Hrun.
Qed.

(** X14.  In file-only mode DeleteToken is idempotent: a DeleteToken that
    succeeded is followed by a DeleteToken that succeeds as well; a missing
    token file or config file is not an error. *)
Theorem file_only_delete_is_idempotent (w w1 : World) :
  file_only w →
  DeleteAccessToken w = Returns None w1 →
  ∃ w2, DeleteAccessToken w1 = Returns None w2 ∧ nodes w2 = nodes w1.
Proof.
  intros Hmode Hfirst.
  rewrite (DeleteAccessToken_file_only w Hmode) in Hfirst.
  destruct (deleteAccessTokenPath_inv _ w1 Hfirst)
    as (home & Hhome & Htok & Hcfg & Hgone & Hgone' & _ & (Hh & Ho & Hf)).
  cbn in Hhome, Htok, Hcfg, Hh, Ho, Hf.
  assert (Hmode1 : file_only w1) by (unfold file_only; by rewrite Ho).
  rewrite (DeleteAccessToken_file_only w1 Hmode1).
  unfold deleteAccessTokenPath.
  rewrite bind_unfold, (accessTokenPath_home _ home) by (cbn; congruence).
  cbn beta iota.
  rewrite bind_unfold, os_Remove_cases. cbn. rewrite Hf, Htok, Hgone.
  cbn. unfold deleteDefaultConfigFile.
  rewrite bind_unfold, (DefaultConfigPath_home _ home) by (cbn; congruence).
  cbn beta iota.
  rewrite bind_unfold, os_Remove_cases. cbn. rewrite Hf, Hcfg, Hgone'.
  by eexists.
Qed.

Lemma file_only_delete_is_idempotent_witness :
  ∃ w2, DeleteAccessToken
          (world_of (DeleteAccessToken (file_only_with_mode 420 no_fault)))
        = Returns None w2 ∧
        nodes w2 =
          nodes (world_of (DeleteAccessToken (file_only_with_mode 420 no_fault))).
Proof.
  apply (file_only_delete_is_idempotent (file_only_with_mode 420 no_fault));
    [reflexivity | by vm_compute].
Defined.

(** X15.  In file-only mode, when the token file cannot be removed,
    DeleteToken returns that error, wrapped, right away: the removal of the
    default config file is not attempted and the file system is as it
    was. *)
Theorem token_removal_failure_stops_the_delete (w : World) (home : string) :
  file_only w →
  home_dir w = Some home →
  fault w (OsRemove (tokenPathOf home)) = true →
  ∃ w', DeleteAccessToken w =
          Returns (Some (Wrap (ErrFault (OsRemove (tokenPathOf home)))
                              "error removing access token file")) w' ∧
        nodes w' = nodes w ∧
        trace w' = (trace w ++ [Call KeyringOpen;
                                Call (OsRemove (tokenPathOf home))])%list.
Proof.
  intros Hmode Hhome Hrm.
  rewrite (DeleteAccessToken_file_only w Hmode).
  rewrite (deleteAccessTokenPath_token_fault _ home) by done.
  eexists; split; [reflexivity |]. cbn.
  split; [done | by rewrite <- app_assoc].
Qed.

Lemma token_removal_failure_stops_the_delete_witness :
  ∃ w', DeleteAccessToken (file_only_with_mode 420 remove_fails) =
          Returns (Some (Wrap (ErrFault (OsRemove (tokenPathOf "/home/dev")))
                              "error removing access token file")) w' ∧
        nodes w' = nodes (file_only_with_mode 420 remove_fails) ∧
        trace w' = (trace (file_only_with_mode 420 remove_fails)
                    ++ [Call KeyringOpen;
                        Call (OsRemove (tokenPathOf "/home/dev"))])%list.
Proof.
  apply (token_removal_failure_stops_the_delete
           (file_only_with_mode 420 remove_fails) "/home/dev"); reflexivity.
Defined.

(** X16.  The file branch of DeleteToken is not atomic: when the token
    file can be removed and the default config file cannot, DeleteToken
    returns the wrapped error of the second removal, the token file is
    gone all the same and the config file is as it was. *)
Theorem config_removal_failure_after_token (w : World) (home : string) :
  file_only w →
  home_dir w = Some home →
  fault w (OsRemove (tokenPathOf home)) = false →
  fault w (OsRemove (configPathOf home)) = true →
  ∃ w', DeleteAccessToken w =
          Returns (Some (Wrap (ErrFault (OsRemove (configPathOf home)))
                              "error removing default config file")) w' ∧
        nodes w' !! tokenPathOf home = None ∧
        nodes w' !! configPathOf home = nodes w !! configPathOf home.
Proof.
  intros Hmode Hhome Htok Hcfg.
  rewrite (DeleteAccessToken_file_only w Hmode).
  destruct (deleteAccessTokenPath_config_fault
              (record (Call KeyringOpen) w) home Hhome Htok Hcfg)
    as (w' & Hrun & Hnodes & _).
  exists w'. split; [done |]. rewrite Hnodes. cbn.
  split; [apply lookup_delete_eq |].
  apply lookup_delete_ne, tokenPathOf_not_configPathOf.
Qed.

Lemma config_removal_failure_after_token_witness :
  ∃ w', DeleteAccessToken (file_only_with_mode 420 config_remove_fails) =
          Returns (Some (Wrap (ErrFault (OsRemove (configPathOf "/home/dev")))
                              "error removing default config file")) w' ∧
        nodes w' !! tokenPathOf "/home/dev" = None ∧
        nodes w' !! configPathOf "/home/dev"
          = nodes (file_only_with_mode 420 config_remove_fails)
              !! configPathOf "/home/dev".
Proof.
  apply (config_removal_failure_after_token
           (file_only_with_mode 420 config_remove_fails) "/home/dev");
    first [ reflexivity | by vm_compute ].
Defined.

(** ** Operations in sequence *)

(** A DeleteToken through the store that succeeded, read backwards. *)
Lemma DeleteAccessToken_store_inv (w w1 : World) :
  open_err w = None →
  DeleteAccessToken w = Returns None w1 →
  fault w (KeyringRemove keyringKey) = false ∧
  w1 = with_items (delete keyringKey (ring_items w))
         (record (Call (KeyringRemove keyringKey)) (record (Call KeyringOpen) w)).
Proof.
  intros Hopen Hrun.
  rewrite (DeleteAccessToken_store w Hopen), ring_Remove_cases in Hrun.
  cbn in Hrun.
  destruct (fault w (KeyringRemove keyringKey)); [done |].
  destruct (ring_items w !! keyringKey); [| done].
  by injection Hrun as <-.
Qed.

(** X17.  Logout through the store sticks when there is no fallback file:
    after a DeleteToken that succeeded, ReadToken returns "no credential"
    without an error. *)
Theorem deleted_token_is_gone (w w1 : World) (home : string) :
  open_err w = None →
  DeleteAccessToken w = Returns None w1 →
  home_dir w = Some home →
  nodes w !! tokenPathOf home = None →
  fault w (KeyringGet keyringKey) = false →
  fault w (OsStat (tokenPathOf home)) = false →
  ∃ w2, readAccessToken w1 = Returns ("", None) w2.
Proof.
  intros Hopen Hdel Hhome Hnone Hget Hstat.
  destruct (DeleteAccessToken_store_inv w w1 Hopen Hdel) as (_ & ->).
  rewrite readAccessToken_not_found
    by (repeat split; try done; apply lookup_delete_eq).
  rewrite bind_unfold, (readAccessTokenPath_missing _ home) by done.
  by eexists.
Qed.

Lemma deleted_token_is_gone_witness :
  ∃ w2, readAccessToken
          (world_of (DeleteAccessToken
                       (host None {[ keyringKey := "tok-A" ]} ∅ no_fault)))
        = Returns ("", None) w2.
Proof.
  apply (deleted_token_is_gone
           (host None {[ keyringKey := "tok-A" ]} ∅ no_fault) _ "/home/dev");
    first [ reflexivity | by vm_compute ].
Defined.

(** X18.  Logout through the store does not stick next to a fallback
    file: when the file holds a non-empty token, the ReadToken after a
    DeleteToken that succeeded migrates the file, so it returns the token
    of the file and the store holds it again. *)
Theorem stale_file_undoes_the_delete (w w1 : World) (home secret : string) :
  open_err w = None →
  DeleteAccessToken w = Returns None w1 →
  file_holds w home secret →
  secret ≠ "" →
  fault w (KeyringGet keyringKey) = false →
  fault w (KeyringSet keyringKey secret) = false →
  fault w (OsRemove (tokenPathOf home)) = false →
  ∃ w2, readAccessToken w1 = Returns (secret, None) w2 ∧
        ring_items w2 !! keyringKey = Some secret ∧
        nodes w2 !! tokenPathOf home = None.
Proof.
  intros Hopen Hdel Hfile Hne Hget Hset Hrm.
  destruct (DeleteAccessToken_store_inv w w1 Hopen Hdel) as (_ & ->).
  set (w1 := with_items _ _).
  assert (Hpending : migration_pending w1 home secret).
  { split; [| split; [exact Hfile | exact Hne]].
    repeat split; try done. apply lookup_delete_eq. }
  destruct (readAccessToken_migrates w1 home secret Hpending)
    as (w' & -> & [mode Hkept] & Hitems & (Hhome & _ & Hfault)).
  assert (Hhome' : home_dir w' = Some home)
    by (rewrite Hhome; apply Hfile).
  rewrite (migrateAccessToken_done w' home secret Hhome' (File mode secret))
    by (done || by rewrite Hfault).
  eexists; split; [reflexivity |]. cbn.
  split; [apply lookup_insert_eq | apply lookup_delete_eq].
Qed.

Lemma stale_file_undoes_the_delete_witness :
  ∃ w2, readAccessToken (world_of (DeleteAccessToken (two_tokens no_fault)))
        = Returns ("tok-B", None) w2 ∧
        ring_items w2 !! keyringKey = Some "tok-B" ∧
        nodes w2 !! tokenPathOf "/home/dev" = None.
Proof.
  apply (stale_file_undoes_the_delete (two_tokens no_fault) _ "/home/dev" "tok-B");
    first [ reflexivity | discriminate | by vm_compute | on_host ].
Defined.

(** X19.  Migration happens once: after the ReadToken that migrated S, a
    second ReadToken returns S from the store, and leaves the store and the
    file system as the first one left them. *)
Theorem migration_happens_once (w : World) (home secret : string) :
  migration_pending w home secret →
  fault w (KeyringSet keyringKey secret) = false →
  fault w (OsRemove (tokenPathOf home)) = false →
  ∃ w1 w2, readAccessToken w = Returns (secret, None) w1 ∧
           readAccessToken w1 = Returns (secret, None) w2 ∧
           nodes w2 = nodes w1 ∧
           ring_items w2 = ring_items w1.
Proof.
  intros Hpending Hset Hrm.
  destruct (readAccessToken_migrates w home secret Hpending)
    as (w0 & -> & [mode Hkept] & Hitems & (Hhome & Hopen & Hfault)).
  assert (Hhome0 : home_dir w0 = Some home)
    by (rewrite Hhome; apply Hpending).
  rewrite (migrateAccessToken_done w0 home secret Hhome0 (File mode secret))
    by (done || by rewrite Hfault).
  set (w1 := with_nodes _ _).
  exists w1.
  rewrite (readAccessToken_found w1 secret).
  - by eexists.
  - cbn. rewrite Hopen. apply Hpending.
  - cbn. rewrite Hfault. apply Hpending.
  - cbn. apply lookup_insert_eq.
Qed.

Lemma migration_happens_once_witness :
  ∃ w1 w2, readAccessToken (unmigrated no_fault) = Returns ("tok-B", None) w1 ∧
           readAccessToken w1 = Returns ("tok-B", None) w2 ∧
           nodes w2 = nodes w1 ∧
           ring_items w2 = ring_items w1.
Proof.
  apply (migration_happens_once (unmigrated no_fault) "/home/dev" "tok-B");
    [on_host | reflexivity | reflexivity].
Defined.

(** ** Building the configuration *)

(** X20.  [New] follows ReadToken: when ReadToken returns a token without
    an error, [New] returns a config with that token, the default base URL
    and no service token, which is authenticated exactly when the token is
    not empty; when ReadToken returns an error, [New] returns that error
    and no config. *)
Theorem New_follows_the_read (w w' : World) (token : string) (err : option error) :
  readAccessToken w = Returns (token, err) w' →
  match err with
  | None =>
      ∃ c, New w = Returns (Some c, None) w' ∧
           AccessToken c = token ∧
           BaseURL c = DefaultBaseURL ∧
           ServiceToken c = "" ∧ ServiceTokenID c = "" ∧
           (IsAuthenticated c = true ↔ token ≠ "")
  | Some e => New w = Returns (None, Some e) w'
  end.
Proof.
  intros Hread. unfold New. rewrite bind_unfold, Hread. cbn beta iota.
  destruct err as [e|]; [done |].
  eexists; split; [reflexivity |]. cbn.
  repeat split; try done.
  - intros Hauth. by apply bool_decide_eq_true_1 in Hauth.
  - intros Hne. by apply bool_decide_eq_true_2.
Qed.

Lemma New_follows_the_read_witness :
  ∃ c, New (two_tokens no_fault)
         = Returns (Some c, None) (world_of (readAccessToken (two_tokens no_fault))) ∧
       AccessToken c = "tok-A" ∧
       BaseURL c = DefaultBaseURL ∧
       ServiceToken c = "" ∧ ServiceTokenID c = "" ∧
       (IsAuthenticated c = true ↔ "tok-A" ≠ "").
Proof.
  apply (New_follows_the_read (two_tokens no_fault) _ "tok-A" None).
  by vm_compute.
Defined.

(** ** The configuration files of global.go *)

Lemma length_append (a b : string) :
  String.length (a +:+ b) = (String.length a + String.length b)%nat.
Proof.
  induction a as [|x a IH]; [done |].
  change (S (String.length (a +:+ b)) = S (String.length a + String.length b)).
  by rewrite IH.
Qed.

Lemma substring_append_l (a b : string) :
  substring 0 (String.length a) (a +:+ b) = a.
Proof.
  induction a as [|x a IH]; [by destruct b |].
  change (String x (substring 0 (String.length a) (a +:+ b)) = String x a).
  by rewrite IH.
Qed.

Lemma substring_append_r (a b : string) :
  substring (String.length a) (String.length b) (a +:+ b) = b.
Proof.
  induction a as [|x a IH]; [| exact IH].
  change (substring 0 (String.length b) b = b).
  induction b as [|y b IHb]; [done |]. cbn. by rewrite IHb.
Qed.

(** [strings.TrimSuffix] takes off the suffix that was put on. *)
Lemma strings_TrimSuffix_append (s suffix : string) :
  strings_TrimSuffix (s +:+ suffix) suffix = s.
Proof.
  unfold strings_TrimSuffix, strings_HasSuffix.
  rewrite length_append.
  replace (String.length s + String.length suffix - String.length suffix)%nat
    with (String.length s) by lia.
  rewrite substring_append_r, substring_append_l.
  rewrite bool_decide_eq_true_2 by lia.
  by rewrite bool_decide_eq_true_2.
Qed.

Lemma substring_whole (s : string) : substring 0 (String.length s) s = s.
Proof. induction s as [|c s IH]; [done |]. cbn. by rewrite IH. Qed.

(** A string is what precedes a position and what follows it. *)
Lemma substring_split (s : string) (n : nat) :
  (n ≤ String.length s)%nat →
  s = substring 0 n s +:+ substring n (String.length s - n) s.
Proof.
  revert n. induction s as [|c s IH]; intros n Hn.
  - cbn in Hn. assert (n = 0%nat) as -> by lia. done.
  - destruct n as [|n].
    + cbn [substring String.length]. rewrite Nat.sub_0_r.
      change (String c s = String c (substring 0 (String.length s) s)).
      by rewrite substring_whole.
    + cbn in Hn.
      change (String c s
              = String c (substring 0 n s
                          +:+ substring n (String.length s - n) s)).
      f_equal. apply IH. lia.
Qed.

(** [strings.TrimSuffix] leaves a string without the suffix as it is. *)
Lemma strings_TrimSuffix_other (s suffix : string) :
  (∀ d, s ≠ d +:+ suffix) → strings_TrimSuffix s suffix = s.
Proof.
  intros Hnot. unfold strings_TrimSuffix, strings_HasSuffix.
  case_bool_decide as Hlen; [| done].
  case_bool_decide as Hends; [| done]. cbn.
  destruct (Hnot (substring 0 (String.length s - String.length suffix) s)).
  pose proof (substring_split s (String.length s - String.length suffix))
    as Hsplit.
  replace (String.length s - (String.length s - String.length suffix))%nat
    with (String.length suffix) in Hsplit by lia.
  rewrite Hends in Hsplit. apply Hsplit. lia.
Qed.

Lemma configPathOf_nonempty (home : string) : configPathOf home ≠ "".
Proof.
  unfold configPathOf, path_Join.
  rewrite bool_decide_eq_false_2 by apply configDirOf_nonempty.
  unfold configDirOf. by destruct home.
Qed.

Section GlobalConfigProperties.
Variable yaml_Marshal : FileConfig.t → string * option file_error.
Variable yaml_Unmarshal : string → FileConfig.t * option file_error.
Variable git_toplevel : M (string * option file_error).

(** X21.  [Write] checks before it does anything: with an empty path or
    an empty organization it returns an error, the empty path first, and
    neither marshals the config nor calls the file system; so does
    [WriteDefault] for an empty organization. *)
Theorem Write_checks_before_writing (w : World) (f : FileConfig.t) (path : string) :
  path = "" ∨ FileConfig.Organization f = "" →
  FileConfig_Write yaml_Marshal f path w =
    Returns (Some (ErrorsNew (if bool_decide (path = "")
                              then "path is empty"
                              else "fileconfig.Organization must be set"))) w ∧
  (FileConfig.Organization f = "" →
   ∀ home, home_dir w = Some home →
     WriteDefault yaml_Marshal f w =
       Returns (Some (ErrorsNew "fileconfig.Organization must be set")) w).
Proof.
  intros Hbad. split.
  - unfold FileConfig_Write. case_bool_decide as Hpath; [done |].
    destruct Hbad as [Hempty | Horg]; [done |].
    by rewrite bool_decide_eq_true_2.
  - intros Horg home Hhome. unfold WriteDefault.
    rewrite bind_unfold, (DefaultConfigPath_home w home Hhome).
    cbn beta iota. unfold FileConfig_Write.
    rewrite bool_decide_eq_false_2 by apply configPathOf_nonempty.
    by rewrite bool_decide_eq_true_2.
Qed.

(** What [WriteDefault] does for a config that passes the checks. *)
Lemma WriteDefault_runs (w : World) (home data : string) (f : FileConfig.t) :
  home_dir w = Some home →
  FileConfig.Organization f ≠ "" →
  yaml_Marshal f = (data, None) →
  WriteDefault yaml_Marshal f w =
    (ioutil_WriteFile (configPathOf home) data configFileMode
       ≫= λ err, mret (Below <$> err)) w.
Proof.
  intros Hhome Horg Hyaml. unfold WriteDefault.
  rewrite bind_unfold, (DefaultConfigPath_home w home Hhome).
  cbn beta iota. unfold FileConfig_Write.
  rewrite bool_decide_eq_false_2 by apply configPathOf_nonempty.
  rewrite bool_decide_eq_false_2 by done.
  by rewrite Hyaml.
Qed.

(** X22.  What [WriteDefault] writes, [DefaultConfig] reads: on a host
    where the config directory exists, for a config with an organization
    that yaml marshals and unmarshals again, and a [ConfigFS] on the file
    system of the host, [WriteDefault] followed by [DefaultConfig] returns
    the config written; the file is <ConfigDir>/pscale.yml, created with
    mode 0644 if it was not there. *)
Theorem WriteDefault_then_DefaultConfig
    (w : World) (home data : string) (f : FileConfig.t) (perm : Z) :
  home_dir w = Some home →
  nodes w !! configDirOf home = Some (Dir perm) →
  FileConfig.Organization f ≠ "" →
  yaml_Marshal f = (data, None) →
  yaml_Unmarshal data = (f, None) →
  (∀ p, nodes w !! configPathOf home ≠ Some (Dir p)) →
  fault w (IoWriteFile (configPathOf home) data configFileMode) = false →
  fault w (IoReadFile (configPathOf home)) = false →
  ∃ w1 w2 mode,
    WriteDefault yaml_Marshal f w = Returns None w1 ∧
    nodes w1 !! configPathOf home = Some (File mode data) ∧
    (nodes w !! configPathOf home = None → mode = configFileMode) ∧
    DefaultConfig yaml_Unmarshal hostFS w1 = Returns (Some f, None) w2.
Proof.
  intros Hhome Hdir Horg Hyaml Hback Hnodir Hwrite Hread.
  rewrite (WriteDefault_runs w home data f Hhome Horg Hyaml).
  rewrite bind_unfold, ioutil_WriteFile_cases, Hwrite.
  assert (Hrun : ∀ (w1 : World) (mode : Z),
            home_dir w1 = Some home → fault w1 = fault w →
            nodes w1 !! configPathOf home = Some (File mode data) →
            ∃ w2, DefaultConfig yaml_Unmarshal hostFS w1
                  = Returns (Some f, None) w2).
  { intros w1 mode Hhome1 Hfault1 Hfile1. unfold DefaultConfig.
    rewrite bind_unfold, (DefaultConfigPath_home w1 home Hhome1).
    cbn beta iota. unfold NewFileConfig, hostFS, NewConfigFS. cbn [fsys].
    rewrite bind_unfold, bind_unfold, ioutil_ReadFile_cases.
    rewrite Hfault1, Hread, Hfile1. cbn. rewrite Hback. by eexists. }
  destruct (nodes w !! configPathOf home) as [[mode old|p]|] eqn:Hnode.
  - set (w1 := with_nodes _ _).
    destruct (Hrun w1 mode) as (w2 & Hrun2);
      [done | done | apply lookup_insert_eq |].
    exists w1, w2, mode.
    split; [done |]. split; [apply lookup_insert_eq | done].
  - by destruct (Hnodir p).
  - rewrite parent_of_config_file, Hdir.
    set (w1 := with_nodes _ _).
    destruct (Hrun w1 configFileMode) as (w2 & Hrun2);
      [done | done | apply lookup_insert_eq |].
    exists w1, w2, configFileMode.
    split; [done |]. split; [apply lookup_insert_eq | done].
Qed.

(** X23.  In file-only mode logout takes the default config along: on a
    host where the config directory exists, the file that [WriteDefault]
    wrote is gone after a DeleteToken that follows it. *)
Theorem logout_removes_the_default_config
    (w : World) (home data : string) (f : FileConfig.t) (perm : Z) :
  file_only w →
  home_dir w = Some home →
  nodes w !! configDirOf home = Some (Dir perm) →
  FileConfig.Organization f ≠ "" →
  yaml_Marshal f = (data, None) →
  nodes w !! configPathOf home = None →
  fault w (IoWriteFile (configPathOf home) data configFileMode) = false →
  fault w (OsRemove (tokenPathOf home)) = false →
  fault w (OsRemove (configPathOf home)) = false →
  ∃ w1 w2,
    WriteDefault yaml_Marshal f w = Returns None w1 ∧
    nodes w1 !! configPathOf home = Some (File configFileMode data) ∧
    DeleteAccessToken w1 = Returns None w2 ∧
    nodes w2 !! configPathOf home = None.
Proof.
  intros Hmode Hhome Hdir Horg Hyaml Hnone Hwrite Htok Hcfg.
  rewrite (WriteDefault_runs w home data f Hhome Horg Hyaml).
  rewrite bind_unfold, ioutil_WriteFile_cases, Hwrite, Hnone.
  rewrite parent_of_config_file, Hdir.
  set (w1 := with_nodes _ _).
  assert (Hmode1 : file_only w1) by done.
  destruct (deleteAccessTokenPath_done (record (Call KeyringOpen) w1) home)
    as (w2 & Hrun & _ & Hgone & _); try done.
  exists w1, w2. split; [done |].
  split; [apply lookup_insert_eq |].
  by rewrite (DeleteAccessToken_file_only w1 Hmode1).
Qed.

(** X26.  [WriteDefault] does not make the config directory: on a host
    where that directory is missing and the config file with it, the write
    fails with the NotExist error of [ioutil.WriteFile] and nothing is
    created. *)
Theorem WriteDefault_needs_the_directory
    (w : World) (home data : string) (f : FileConfig.t) :
  home_dir w = Some home →
  nodes w !! configDirOf home = None →
  nodes w !! configPathOf home = None →
  FileConfig.Organization f ≠ "" →
  yaml_Marshal f = (data, None) →
  fault w (IoWriteFile (configPathOf home) data configFileMode) = false →
  ∃ w1,
    WriteDefault yaml_Marshal f w =
      Returns (Some (Below (ErrNotExist
                 (IoWriteFile (configPathOf home) data configFileMode)))) w1 ∧
    nodes w1 = nodes w.
Proof.
  intros Hhome Hdir Hnone Horg Hyaml Hwrite.
  rewrite (WriteDefault_runs w home data f Hhome Horg Hyaml).
  rewrite bind_unfold, ioutil_WriteFile_cases, Hwrite, Hnone.
  rewrite parent_of_config_file, Hdir.
  by eexists.
Qed.

(** X24.  [ProjectConfigPath] never returns an error: whatever git
    answers, the error that comes back is nil; when git fails, the path is
    the bare name [.pscale.yml], relative to the working directory. *)
Theorem ProjectConfigPath_never_fails
    (w w' : World) (out : string) (err : option file_error) :
  git_toplevel w = Returns (out, err) w' →
  ∃ path, ProjectConfigPath git_toplevel w = Returns (path, None) w' ∧
          (err ≠ None → path = ".pscale.yml").
Proof.
  intros Hgit. unfold ProjectConfigPath, RootGitRepoDir.
  rewrite !bind_unfold, Hgit. cbn beta iota.
  destruct err as [e|].
  - by eexists.
  - eexists; split; [reflexivity | done].
Qed.

(** X25.  [RootGitRepoDir] returns what git printed without the newline
    at its end: one newline is taken off an output that ends in one, an
    output that does not end in a newline is returned as it is; when git
    fails, whatever it printed, its output and its error are dropped for
    the error "unable to find git root directory". *)
Theorem RootGitRepoDir_trims_the_newline
    (w w' : World) (out : string) (err : option file_error) :
  git_toplevel w = Returns (out, err) w' →
  match err with
  | Some _ =>
      RootGitRepoDir git_toplevel w =
        Returns ("", Some (ErrorsNew "unable to find git root directory")) w'
  | None =>
      ∃ dir, RootGitRepoDir git_toplevel w = Returns (dir, None) w' ∧
             (∀ d, out = d +:+ newline → dir = d) ∧
             ((∀ d, out ≠ d +:+ newline) → dir = out)
  end.
Proof.
  intros Hgit. unfold RootGitRepoDir.
  rewrite bind_unfold, Hgit. cbn beta iota.
  destruct err as [e|]; [done |].
  eexists; split; [reflexivity |]. split.
  - intros d ->. apply strings_TrimSuffix_append.
  - apply strings_TrimSuffix_other.
Qed.

End GlobalConfigProperties.

Lemma Write_checks_before_writing_witness :
  FileConfig_Write lines_Marshal
      {| FileConfig.Organization := ""; FileConfig.Database := "shop";
         FileConfig.Branch := "main" |} "pscale.yml" fresh_file_only =
    Returns (Some (ErrorsNew (if bool_decide ("pscale.yml" = "")
                              then "path is empty"
                              else "fileconfig.Organization must be set")))
            fresh_file_only ∧
  (FileConfig.Organization
     {| FileConfig.Organization := ""; FileConfig.Database := "shop";
        FileConfig.Branch := "main" |} = "" →
   ∀ home, home_dir fresh_file_only = Some home →
     WriteDefault lines_Marshal
         {| FileConfig.Organization := ""; FileConfig.Database := "shop";
            FileConfig.Branch := "main" |} fresh_file_only =
       Returns (Some (ErrorsNew "fileconfig.Organization must be set"))
               fresh_file_only).
Proof.
  apply (Write_checks_before_writing lines_Marshal fresh_file_only
           {| FileConfig.Organization := ""; FileConfig.Database := "shop";
              FileConfig.Branch := "main" |} "pscale.yml").
  right. reflexivity.
Defined.

Lemma WriteDefault_then_DefaultConfig_witness :
  ∃ w1 w2 mode,
    WriteDefault lines_Marshal demo_config config_dir_only = Returns None w1 ∧
    nodes w1 !! configPathOf "/home/dev"
      = Some (File mode (fst (lines_Marshal demo_config))) ∧
    (nodes config_dir_only !! configPathOf "/home/dev" = None →
     mode = configFileMode) ∧
    DefaultConfig demo_Unmarshal hostFS w1 = Returns (Some demo_config, None) w2.
Proof.
  apply (WriteDefault_then_DefaultConfig lines_Marshal demo_Unmarshal
           config_dir_only "/home/dev" (fst (lines_Marshal demo_config))
           demo_config 505);
    first [ reflexivity | discriminate | by vm_compute | by intros p ].
Defined.

Lemma logout_removes_the_default_config_witness :
  ∃ w1 w2,
    WriteDefault lines_Marshal demo_config config_dir_only = Returns None w1 ∧
    nodes w1 !! configPathOf "/home/dev"
      = Some (File configFileMode (fst (lines_Marshal demo_config))) ∧
    DeleteAccessToken w1 = Returns None w2 ∧
    nodes w2 !! configPathOf "/home/dev" = None.
Proof.
  apply (logout_removes_the_default_config lines_Marshal
           config_dir_only "/home/dev" (fst (lines_Marshal demo_config))
           demo_config 505);
    first [ reflexivity | discriminate | by vm_compute ].
Defined.

Lemma WriteDefault_needs_the_directory_witness :
  ∃ w1,
    WriteDefault lines_Marshal demo_config fresh_file_only =
      Returns (Some (Below (ErrNotExist
                 (IoWriteFile (configPathOf "/home/dev")
                              (fst (lines_Marshal demo_config))
                              configFileMode)))) w1 ∧
    nodes w1 = nodes fresh_file_only.
Proof.
  apply (WriteDefault_needs_the_directory lines_Marshal
           fresh_file_only "/home/dev" (fst (lines_Marshal demo_config))
           demo_config);
    first [ reflexivity | discriminate | by vm_compute ].
Defined.

Lemma ProjectConfigPath_never_fails_witness :
  ∃ path, ProjectConfigPath git_outside fresh_file_only
            = Returns (path, None) fresh_file_only ∧
          (Some (Foreign "exit status 128") ≠ None → path = ".pscale.yml").
Proof.
  apply (ProjectConfigPath_never_fails git_outside fresh_file_only
           fresh_file_only ("fatal: not a git repository" +:+ newline)
           (Some (Foreign "exit status 128"))).
  reflexivity.
Defined.

Lemma RootGitRepoDir_trims_the_newline_witness :
  ∃ dir, RootGitRepoDir (git_inside "/home/dev/shop") fresh_file_only
           = Returns (dir, None) fresh_file_only ∧
         (∀ d, "/home/dev/shop" +:+ newline = d +:+ newline → dir = d) ∧
         ((∀ d, "/home/dev/shop" +:+ newline ≠ d +:+ newline) →
          dir = "/home/dev/shop" +:+ newline).
Proof.
  apply (RootGitRepoDir_trims_the_newline (git_inside "/home/dev/shop")
           fresh_file_only fresh_file_only ("/home/dev/shop" +:+ newline) None).
  reflexivity.
Defined.
